(** * disnake-ext-components: parser registry, resolver, factory and enum parser

    A shallow embedding of
    - [impl/parser/base.py]   (the registry [_PARSERS]/[_REV_PARSERS],
      [register_parser], [_get_parser_type], [get_parser], [Parser.default]),
    - [impl/factory.py]       ([ComponentFactoryBuilder], [ComponentFactory]),
    - [impl/parser/enum.py]   ([_get_enum_type], [EnumParser.__init__]),
    - [impl/parser/channel.py] and [impl/parser/emoji.py] (the [loads] of
      the cache-only and of the fetching parsers),
    followed by the properties of the specification stated over it, and by
    further properties of the code. *)

From stdpp Require Import gmap strings list.

Open Scope string_scope.
Open Scope list_scope.
Set Warnings "-register-all,-clear-no-such-hyp".

(** ** Python values the code manipulates *)

(** A type expression, as [typing.get_origin]/[typing.get_args] see it:
    a bare class or special form ([int], [tuple], [typing.Union]), or a
    generic alias [origin[args]] ([typing.List[int]], and the bare
    [typing.List], whose argument tuple is empty). *)
Inductive pytype : Type :=
| TClass (name : string)
| TAlias (origin : string) (args : list pytype).

Lemma type_eq_dec : ∀ a b : pytype, {a = b} + {a ≠ b}.
Proof.
  fix IH 1.
  intros [n|o xs] [m|p ys]; try (right; discriminate).
  - destruct (decide (n = m)) as [->|Hne]; [left; reflexivity|].
    right; intros [=]; contradiction.
  - destruct (decide (o = p)) as [->|Hne];
      [|right; intros [=]; contradiction].
    destruct (list_eq_dec (dec := IH) xs ys) as [->|Hne];
      [left; reflexivity|right; intros [=]; contradiction].
Defined.

#[global] Instance type_eq_decision : EqDecision pytype := type_eq_dec.

(** [typing.get_origin]: [None] for a bare class, the unsubscripted origin
    for an alias. *)
Definition get_origin (t : pytype) : option pytype :=
  match t with
  | TClass _ => None
  | TAlias origin _ => Some (TClass origin)
  end.

(** [typing.get_args]. *)
Definition get_args (t : pytype) : list pytype :=
  match t with
  | TClass _ => []
  | TAlias _ args => args
  end.

(** [repr] of a string without quotes or escapes (class names). *)
Definition repr (s : string) : string := "'" +:+ s +:+ "'".

Definition str : pytype := TClass "str".
Definition int : pytype := TClass "int".
Definition object : pytype := TClass "object".
Definition typing_Union : pytype := TClass "typing.Union".
(** [typing.Tuple] and [typing.Collection] are the bare aliases of [tuple]
    and [collections.abc.Collection]. *)
Definition typing_Tuple : pytype := TAlias "tuple" [].
Definition typing_Collection : pytype := TAlias "collections.abc.Collection" [].
Definition BaseFlags : pytype := TClass "disnake.flags.BaseFlags".

(** The second argument of [issubclass]. *)
Inductive class_or_tuple : Type :=
| One (c : pytype)
| Tup (cs : list pytype).

(** Exceptions. *)
Inductive Error : Type :=
| TypeError (msg : string)
| ValueError (msg : string)
| KeyError (key : string)
| StopIteration
| ParserError (what : string).

Abbreviation result A := (Error + A)%type.

#[global] Instance result_ret : MRet (sum Error) := λ A x, inr x.
#[global] Instance result_bind : MBind (sum Error) := λ A B f r,
  match r with
  | inr x => f x
  | inl e => inl e
  end.

(** ** Python dictionaries: insertion-ordered, unique keys *)

Module PyDict.
Section ops.
Context {K V : Type} `{EqDecision K}.

Definition t := list (K * V).

(** [d[k]] / [k in d] *)
Fixpoint get (k : K) (d : list (K * V)) : option V :=
  match d with
  | [] => None
  | (k', v) :: d' => if decide (k = k') then Some v else get k d'
  end.

(** [d[k] = v]: an existing key keeps its position. *)
Fixpoint set (k : K) (v : V) (d : list (K * V)) : list (K * V) :=
  match d with
  | [] => [(k, v)]
  | (k', v') :: d' =>
      if decide (k = k') then (k', v) :: d' else (k', v') :: set k v d'
  end.

(** [d.setdefault(k, v)] (the returned value is not used by the code). *)
Definition setdefault (k : K) (v : V) (d : list (K * V)) : list (K * V) :=
  match get k d with
  | Some _ => d
  | None => d ++ [(k, v)]
  end.

Definition keys (d : list (K * V)) : list K := d.*1.

End ops.
End PyDict.

(** ** Objects and the world *)

(** A parser instance: its identity, its class, and what its constructor
    was given (inner parsers, and [collection_type] for collection
    parsers). The parser classes themselves are outside the modelled files. *)
Inductive parser : Type :=
  Parser (oid : nat) (cls : string) (args : list parser)
         (collection_type : option pytype).

Definition parser_oid (p : parser) : nat := let 'Parser i _ _ _ := p in i.
Definition parser_cls (p : parser) : string := let 'Parser _ c _ _ := p in c.
Definition parser_args (p : parser) : list parser := let 'Parser _ _ a _ := p in a.
Definition parser_collection_type (p : parser) : option pytype :=
  let 'Parser _ _ _ c := p in c.

(** What the code uses of Python and of the classes it is given, all
    outside the modelled files:
    - the builtin [issubclass]; [None] is the [TypeError] it raises when an
      argument is not a class;
    - the truth value of a parser object, which [if not parser] tests: a
      parser class may define [__bool__] or [__len__];
    - the [__name__] of a generic alias, which [typing] gives a name of its
      own ([typing.Type[int].__name__] is ['Type']). *)
Class Builtins := {
  issubclass : pytype → class_or_tuple → option bool;
  truth : parser → bool;
  alias_name : string → list pytype → string;
}.

(** [type_.__name__] *)
Definition __name__ `{Builtins} (t : pytype) : string :=
  match t with
  | TClass name => name
  | TAlias origin args => alias_name origin args
  end.

(** Values that travel through [loads]/[dumps] and enum members. *)
Inductive Value : Type :=
| VNone
| VBool (b : bool)
| VInt (z : Z)
| VStr (s : string)
| VComponent (cls : string) (kwargs : list (string * Value)).

(** [type(v)] *)
Definition type_of (v : Value) : pytype :=
  match v with
  | VNone => TClass "NoneType"
  | VBool _ => TClass "bool"
  | VInt _ => int
  | VStr _ => str
  | VComponent cls _ => TClass cls
  end.

(** What the outside world sees of a run: calls of a parser's [loads] and
    [dumps], and calls of a component class. *)
Inductive Event : Type :=
| LoadsCalled (p : parser) (argument : string)
| DumpsCalled (p : parser) (argument : Value)
| ComponentCalled (component : string) (kwargs : list (string * Value)).

(** The mutable world: the next fresh object identity, the dictionaries
    that are shared by reference, and the calls made so far. *)
Record World := {
  next_oid : nat;
  dicts : gmap nat (gmap string parser);
  trace : list Event;
}.

Definition M (A : Type) : Type := World → result A * World.

#[global] Instance M_ret : MRet M := λ A x w, (inr x, w).
#[global] Instance M_bind : MBind M := λ A B f m w,
  match m w with
  | (inr x, w') => f x w'
  | (inl e, w') => (inl e, w')
  end.

Definition raise {A} (e : Error) : M A := λ w, (inl e, w).
Definition lift {A} (r : result A) : M A := λ w, (r, w).

(** The world after one object was created. *)
Definition bump (w : World) : World :=
  {| next_oid := S (next_oid w); dicts := dicts w; trace := trace w |}.

(** A fresh object identity. *)
Definition fresh : M nat := λ w, (inr (next_oid w), bump w).

(** The world after the calls [es] were made. *)
Definition logged (es : list Event) (w : World) : World :=
  {| next_oid := next_oid w; dicts := dicts w; trace := trace w ++ es |}.

Definition emit (e : Event) : M () := λ w, (inr (), logged [e] w).

(** [dict()] *)
Definition new_dict : M nat := λ w,
  (inr (next_oid w),
   {| next_oid := S (next_oid w);
      dicts := <[next_oid w := ∅]> (dicts w);
      trace := trace w |}).

(** The world after [d[k] = v] on the dictionary object [ref]. *)
Definition set_item (ref : nat) (k : string) (v : parser) (w : World) : World :=
  {| next_oid := next_oid w;
     dicts := alter (insert k v) ref (dicts w);
     trace := trace w |}.

(** [d[k] = v] on the dictionary object [ref]. *)
Definition dict_setitem (ref : nat) (k : string) (v : parser) : M () := λ w,
  (inr (), set_item ref k v w).

(** The contents of the dictionary object [ref]. *)
Definition deref (w : World) (ref : nat) : gmap string parser :=
  default ∅ (dicts w !! ref).

(** A direct call of the builtin: its [TypeError] propagates. *)
Definition issubclass_or_raise `{Builtins} (c : pytype) (k : class_or_tuple) : result bool :=
  match issubclass c k with
  | Some b => inr b
  | None => inl (TypeError "issubclass() arg 1 must be a class")
  end.

(** ** [impl/parser/base.py] *)

Record Registry := {
  _PARSERS : list (pytype * string);
  _REV_PARSERS : list (string * list pytype);
}.

Definition empty_registry : Registry := {| _PARSERS := []; _REV_PARSERS := [] |}.

Section base.
Context `{Builtins}.

Definition _issubclass (cls : pytype) (class_or_tuple : class_or_tuple) : bool :=
  match issubclass cls class_or_tuple with
  | Some b => b
  | None =>
      match class_or_tuple with
      | Tup cs => existsb (λ cls_, bool_decide (cls = cls_)) cs
      | One c => bool_decide (cls = c)
      end
  end.

(** [typing.get_origin(type_) or type_] *)
Definition origin_or_self (t : pytype) : pytype := default t (get_origin t).

Definition register_parser (parser : string) (types : list pytype)
    (force : bool) (reg : Registry) : Registry :=
  let types := origin_or_self <$> types in
  if force then
    {| _REV_PARSERS := PyDict.set parser types (_REV_PARSERS reg);
       _PARSERS := foldl (λ d type, PyDict.set type parser d) (_PARSERS reg) types |}
  else
    {| _REV_PARSERS := PyDict.setdefault parser types (_REV_PARSERS reg);
       _PARSERS :=
         foldl (λ d type, PyDict.setdefault type parser d) (_PARSERS reg) types |}.

(** The slow lookup: the loop over [_REV_PARSERS.items()]. *)
Fixpoint scan_rev (type_ : pytype) (items : list (string * list pytype))
    : option string :=
  match items with
  | [] => None
  | (parser, parser_types) :: items' =>
      if _issubclass type_ (Tup parser_types) then Some parser
      else scan_rev type_ items'
  end.

Definition _get_parser_type (reg : Registry) (type_ : pytype) : result string :=
  match PyDict.get type_ (_PARSERS reg) with
  | Some parser => inr parser
  | None =>
      match scan_rev type_ (_REV_PARSERS reg) with
      | Some parser => inr parser
      | None =>
          inl (TypeError ("No parser available for type "
                          +:+ repr (__name__ type_) +:+ "."))
      end
  end.

(** Calling a parser class with inner parsers and, for collections,
    [collection_type]: a new instance. *)
Definition construct (cls : string) (args : list parser)
    (collection_type : option pytype) : M parser :=
  oid ← fresh; mret (Parser oid cls args collection_type).

(** [Parser.default]: [cls()]. *)
Definition Parser_default (cls : string) : M parser := construct cls [] None.

(** [Parser.__init_subclass__]: a class defined with [is_default_for]
    registers itself, with [force] left at its default. *)
Definition __init_subclass__ (cls : string) (is_default_for : list pytype)
    (reg : Registry) : Registry :=
  match is_default_for with
  | [] => reg
  | _ => register_parser cls is_default_for true reg
  end.

(** [Parser.default_types] *)
Definition default_types (reg : Registry) (cls : string) : result (list pytype) :=
  match PyDict.get cls (_REV_PARSERS reg) with
  | Some types => inr types
  | None => inl (KeyError cls)
  end.

(** [get_parser] of a type without origin. *)
Definition get_parser_plain (reg : Registry) (type_ : pytype) : M parser :=
  parser_type ← lift (_get_parser_type reg type_);
  Parser_default parser_type.

(** [get_parser]. The recursion is on the type expression; the one call on
    a type that is not an argument, [get_parser(str)] for a collection
    without arguments, is the origin-less case written out (see
    [get_parser_collection] below for the equation in the shape of the
    source). *)
Fixpoint get_parser (reg : Registry) (type_ : pytype) {struct type_} : M parser :=
  match type_ with
  | TClass _ => get_parser_plain reg type_
  | TAlias o type_args =>
      let origin := TClass o in
      parser_type ← lift (_get_parser_type reg origin);
      if decide (origin = typing_Union) then
        inner_parsers ←
          (fix each (l : list pytype) : M (list parser) :=
             match l with
             | [] => mret []
             | arg :: l' => p ← get_parser reg arg; ps ← each l'; mret (p :: ps)
             end) type_args;
        construct parser_type inner_parsers None
      else
        is_tuple ← lift (issubclass_or_raise origin (One typing_Tuple));
        if is_tuple : bool then
          inner_parsers ←
            (fix each (l : list pytype) : M (list parser) :=
               match l with
               | [] => mret []
               | arg :: l' => p ← get_parser reg arg; ps ← each l'; mret (p :: ps)
               end) type_args;
          construct parser_type inner_parsers None
        else
          is_collection ← lift (issubclass_or_raise origin (One typing_Collection));
          if is_collection : bool then
            inner_parser ←
              match type_args with
              | [] => get_parser_plain reg str
              | inner_type :: _ => get_parser reg inner_type
              end;
            construct parser_type [inner_parser] (Some origin)
          else
            raise (TypeError ("Coult not create a parser for type "
                              +:+ repr (__name__ type_) +:+ "."))
  end.

(** [[get_parser(arg) for arg in type_args]] *)
Definition get_parsers (reg : Registry) : list pytype → M (list parser) :=
  fix each (l : list pytype) : M (list parser) :=
    match l with
    | [] => mret []
    | arg :: l' => p ← get_parser reg arg; ps ← each l'; mret (p :: ps)
    end.

End base.

(** ** [impl/factory.py] *)

(** Modelled from the spec: [attr.Attribute] and [fields.get_parser] are not
    among the modelled files. A field descriptor has a name, an optional
    declared type and an optional explicit parser; [fields.get_parser]
    returns the explicit parser the descriptor carries, or [None]. *)
Record Attribute := {
  attr_name : string;
  attr_type : option pytype;
  attr_parser : option parser;
}.

Definition fields_get_parser (field : Attribute) : option parser :=
  attr_parser field.

(** What [ComponentFactory.parsers] can hold: the dictionary object itself
    ([from_component]) or a [types.MappingProxyType] over one ([build]).
    A proxy has no operation that writes; reading goes to the dictionary it
    wraps. *)
Inductive Mapping : Type :=
| DictObject (ref : nat)
| MappingProxyType (ref : nat).

Definition mapping_target (m : Mapping) : nat :=
  match m with DictObject ref | MappingProxyType ref => ref end.

(** The entries seen through a mapping in world [w]. *)
Definition mapping_items (w : World) (m : Mapping) : gmap string parser :=
  deref w (mapping_target m).

(** [m[k]] *)
Definition mapping_getitem (m : Mapping) (k : string) : M parser := λ w,
  match mapping_items w m !! k with
  | Some p => (inr p, w)
  | None => (inl (KeyError k), w)
  end.

Record ComponentFactoryBuilder := {
  builder_parsers : nat;
  builder_component : string;
}.

Record ComponentFactory := {
  parsers : Mapping;
  component : string;
}.

(** The parser protocol and the component classes are implemented outside
    the modelled files. *)
Class Externals := {
  parser_loads : parser → Value → string → result Value;
  parser_dumps : parser → Value → result string;
  component_call : string → list (string * Value) → result Value;
}.

Section factory.
Context `{Builtins} `{Externals}.

(** [ComponentFactoryBuilder(component)]: [parsers] is a fresh [dict]. *)
Definition new_builder (component : string) : M ComponentFactoryBuilder :=
  d ← new_dict;
  mret {| builder_parsers := d; builder_component := component |}.

(** The body of [if not parser:], in [add_field] and in [from_component].
    [.default()] is a classmethod: called on the instance, it runs on the
    class of the instance. *)
Definition build_parser (reg : Registry) (field : Attribute) : M parser :=
  let field_type := default str (attr_type field) in
  resolved ← get_parser reg field_type;
  Parser_default (parser_cls resolved).

(** [if not parser] holds for [None] and for a parser object that is
    falsy. *)
Definition add_field (reg : Registry) (self : ComponentFactoryBuilder)
    (field : Attribute) : M parser :=
  parser ←
    match fields_get_parser field with
    | Some parser => if truth parser then mret parser else build_parser reg field
    | None => build_parser reg field
    end;
  dict_setitem (builder_parsers self) (attr_name field) parser;;
  mret parser.

Definition build (self : ComponentFactoryBuilder) : ComponentFactory :=
  {| parsers := MappingProxyType (builder_parsers self);
     component := builder_component self |}.

(** The loop of [from_component] over the custom id fields of the
    component, which are given by [fields.get_fields]. *)
Fixpoint from_component_loop (reg : Registry) (parsers : nat)
    (fields : list Attribute) : M () :=
  match fields with
  | [] => mret ()
  | field :: fields' =>
      parser ←
        match fields_get_parser field with
        | Some parser =>
            if truth parser then mret parser else build_parser reg field
        | None => build_parser reg field
        end;
      dict_setitem parsers (attr_name field) parser;;
      from_component_loop reg parsers fields'
  end.

Definition from_component (reg : Registry) (component : string)
    (fields : list Attribute) : M ComponentFactory :=
  parsers ← new_dict;
  from_component_loop reg parsers fields;;
  mret {| parsers := DictObject parsers; component := component |}.

(** [await aio.eval_maybe_coro(result)] gives the result of the call,
    awaited on the spot when it is a coroutine: calls run one after the
    other. *)
Definition loads_param (self : ComponentFactory) (interaction : Value)
    (param value : string) : M Value :=
  parser ← mapping_getitem (parsers self) param;
  emit (LoadsCalled parser value);;
  lift (parser_loads parser interaction value).

Definition dumps_param (self : ComponentFactory) (param : string)
    (value : Value) : M string :=
  parser ← mapping_getitem (parsers self) param;
  emit (DumpsCalled parser value);;
  lift (parser_dumps parser value).

(** The dict comprehension of [loads], over [params.items()]. *)
Fixpoint loads_comprehension (self : ComponentFactory) (interaction : Value)
    (items : list (string * string)) (kwargs : list (string * Value))
    : M (list (string * Value)) :=
  match items with
  | [] => mret kwargs
  | (param, value) :: items' =>
      if bool_decide (value ≠ "") then
        v ← loads_param self interaction param value;
        loads_comprehension self interaction items' (PyDict.set param v kwargs)
      else
        loads_comprehension self interaction items' kwargs
  end.

Definition loads (self : ComponentFactory) (interaction : Value)
    (params : list (string * string)) : M Value :=
  kwargs ← loads_comprehension self interaction params [];
  emit (ComponentCalled (component self) kwargs);;
  lift (component_call (component self) kwargs).

End factory.

(** ** [impl/parser/enum.py] *)

(** An enum or flag class: the class object, its [_member_type_] attribute
    when it has one, and its members in iteration order. *)
Record EnumClass := {
  enum_cls : pytype;
  _member_type_ : option pytype;
  members : list (string * Value);
}.

Record EnumParser := {
  enum_class : EnumClass;
  store_by_value : bool;
  value_type : pytype;
  value_parser : parser;
}.

Section enum.
Context `{Builtins}.

Definition _get_enum_type (enum_class : EnumClass) : result (option pytype) :=
  is_flags ← issubclass_or_raise (enum_cls enum_class) (One BaseFlags);
  if is_flags : bool then inr (Some int)
  else
    let maybe_type := default object (_member_type_ enum_class) in
    if decide (maybe_type ≠ object) then inr (Some maybe_type)
    else
      match members enum_class with
      | [] => inl StopIteration
      | (_, first_value) :: member_iter =>
          let maybe_type := type_of first_value in
          if forallb (λ member, bool_decide (type_of member.2 = maybe_type))
               member_iter
          then inr (Some maybe_type)
          else inr None
      end.

Definition flags_by_name_msg : string :=
  "Cannot store disnake flags by name, as their members do not have names.".

Definition varying_types_msg : string :=
  "Cannot store enum members by value for enums with members of varying types. Please either set `store_by_value` to False or make sure all enum members are of the same type.".

(** [EnumParser.__init__]; [store_by_value] is [None], [True] or [False]. *)
Definition EnumParser_init (reg : Registry) (enum_class : EnumClass)
    (store_by_value : option bool) : M EnumParser :=
  value_type ← lift (_get_enum_type enum_class);
  is_flags ← lift (issubclass_or_raise (enum_cls enum_class) (One BaseFlags));
  if (is_flags : bool) && bool_decide (store_by_value = Some false) then
    raise (ValueError flags_by_name_msg)
  else
    policy ←
      match value_type, store_by_value with
      | None, (None | Some false) => mret (false, str)
      | Some value_type, None =>
          b ← lift (issubclass_or_raise value_type (One int));
          mret (b, value_type)
      | Some value_type, Some store_by_value => mret (store_by_value, value_type)
      | None, Some true => raise (ValueError varying_types_msg)
      end;
    value_parser ← get_parser reg policy.2;
    mret {| enum_class := enum_class;
            store_by_value := policy.1;
            value_type := policy.2;
            value_parser := value_parser |}.

End enum.

(** ** [impl/factory.py], continued *)

(** The use the builder is made for: [add_field] for each field as it is
    created, in declaration order. *)
Fixpoint add_fields `{Builtins} (reg : Registry) (self : ComponentFactoryBuilder)
    (fields : list Attribute) : M () :=
  match fields with
  | [] => mret ()
  | field :: fields' => add_field reg self field;; add_fields reg self fields'
  end.

(** What [dumps] reads of a component and of its class: the custom id
    fields of the class, [fields.get_fields(component_type,
    kind=FieldType.CUSTOM_ID)], the attributes of the instance, [getattr],
    and [component_type.custom_id.format_map]. They are implemented outside
    the modelled files. *)
Class ComponentAccess := {
  get_fields : pytype → list Attribute;
  getattr : Value → string → result Value;
  format_map : pytype → list (string * string) → result string;
}.

Section factory_dumps.
Context `{Externals} `{ComponentAccess}.

(** The dict comprehension of [dumps], over the custom id fields. *)
Fixpoint dumps_comprehension (self : ComponentFactory) (component : Value)
    (fields : list Attribute) (kwargs : list (string * string))
    : M (list (string * string)) :=
  match fields with
  | [] => mret kwargs
  | field :: fields' =>
      value ← lift (getattr component (attr_name field));
      s ← dumps_param self (attr_name field) value;
      dumps_comprehension self component fields'
        (PyDict.set (attr_name field) s kwargs)
  end.

Definition dumps (self : ComponentFactory) (component : Value) : M string :=
  let component_type := type_of component in
  kwargs ← dumps_comprehension self component (get_fields component_type) [];
  lift (format_map component_type kwargs).

End factory_dumps.

(** ** [impl/parser/channel.py] and [impl/parser/emoji.py] *)

(** What the [loads] of these parsers can raise: builtin exceptions,
    [LookupError], and whatever an API request raises. *)
Inductive LookupException : Type :=
| Builtin (e : Error)
| LookupError (msg : string)
| RequestFailed (what : string).

(** A channel, emoji or sticker object: its class and its id. *)
Record Entity := {
  entity_type : pytype;
  entity_id : Z;
}.

(** [inter.guild], with its API requests. *)
Record Guild := {
  fetch_emoji : Z → LookupException + Entity;
  fetch_sticker : Z → LookupException + Entity;
}.

(** What the parsers use of an interaction: the caches of [inter.bot], its
    API request for channels, and [inter.guild]. *)
Record Interaction := {
  get_channel : Z → option Entity;
  fetch_channel : Z → LookupException + Entity;
  get_emoji : Z → option Entity;
  get_sticker : Z → option Entity;
  guild : option Guild;
}.

(** The API requests a call has made. *)
Inductive Request : Type :=
| FetchChannel (id : Z)
| FetchEmoji (id : Z)
| FetchSticker (id : Z).

(** The builtins [int] and [repr] on the strings that arrive as arguments;
    [int] raises [ValueError] on what is no number. *)
Class Conversions := {
  int_of_str : string → result Z;
  repr_of_str : string → string;
}.

Section lookup_parsers.
Context `{Builtins} `{Conversions}.

(** [isinstance(obj, cls)], as [issubclass(type(obj), cls)]. *)
Definition isinstance (obj : Entity) (cls : pytype) : result bool :=
  issubclass_or_raise (entity_type obj) (One cls).

Definition GetChannelParserBase_loads (parser_type : pytype)
    (inter : Interaction) (argument : string) : LookupException + Entity :=
  match int_of_str argument with
  | inl e => inl (Builtin e)
  | inr id =>
      match get_channel inter id with
      | None =>
          inl (LookupError ("Could not find a channel with id "
                            +:+ repr_of_str argument +:+ "."))
      | Some channel =>
          match isinstance channel parser_type with
          | inl e => inl (Builtin e)
          | inr false =>
              inl (Builtin (TypeError
                ("Found a channel of type "
                 +:+ repr (__name__ (entity_type channel)) +:+ " for id"
                 +:+ repr_of_str argument +:+ ", expected (any of) type(s) "
                 +:+ __name__ parser_type +:+ ".")))
          | inr true => inr channel
          end
      end
  end.

(** The asynchronous [loads]: the result, and the requests made. *)
Definition ChannelParserBase_loads (parser_type : pytype)
    (inter : Interaction) (argument : string)
    : (LookupException + Entity) * list Request :=
  match int_of_str argument with
  | inl e => (inl (Builtin e), [])
  | inr channel_id =>
      let found :=
        match get_channel inter channel_id with
        | Some channel => (inr channel, [])
        | None => (fetch_channel inter channel_id, [FetchChannel channel_id])
        end in
      match found with
      | (inl e, requests) => (inl e, requests)
      | (inr channel, requests) =>
          match isinstance channel parser_type with
          | inl e => (inl (Builtin e), requests)
          | inr false =>
              (inl (Builtin (TypeError
                 ("Found a channel of type "
                  +:+ repr (__name__ (entity_type channel)) +:+ " for id "
                  +:+ repr_of_str argument +:+ ", expected (any of) type(s) "
                  +:+ __name__ parser_type +:+ "."))), requests)
          | inr true => (inr channel, requests)
          end
      end
  end.

Definition GetEmojiParser_loads (inter : Interaction) (argument : string)
    : LookupException + Entity :=
  match int_of_str argument with
  | inl e => inl (Builtin e)
  | inr id =>
      match get_emoji inter id with
      | None =>
          inl (LookupError ("Could not find an emoji with id "
                            +:+ repr_of_str argument +:+ "."))
      | Some emoji => inr emoji
      end
  end.

Definition GetStickerParser_loads (inter : Interaction) (argument : string)
    : LookupException + Entity :=
  match int_of_str argument with
  | inl e => inl (Builtin e)
  | inr id =>
      match get_sticker inter id with
      | None =>
          inl (LookupError ("Could not find an emoji with id "
                            +:+ repr_of_str argument +:+ "."))
      | Some sticker => inr sticker
      end
  end.

Definition EmojiParser_loads (inter : Interaction) (argument : string)
    : (LookupException + Entity) * list Request :=
  match guild inter with
  | None =>
      (inl (Builtin (TypeError
         "Impossible to fetch an emoji from an interaction that doesn't come from a guild.")),
       [])
  | Some guild =>
      match int_of_str argument with
      | inl e => (inl (Builtin e), [])
      | inr id =>
          match get_emoji inter id with
          | Some emoji => (inr emoji, [])
          | None => (fetch_emoji guild id, [FetchEmoji id])
          end
      end
  end.

Definition StickerParser_loads (inter : Interaction) (argument : string)
    : (LookupException + Entity) * list Request :=
  match guild inter with
  | None =>
      (inl (Builtin (TypeError
         "Impossible to fetch a sticker from an interaction that doesn't come from a guild.")),
       [])
  | Some guild =>
      match int_of_str argument with
      | inl e => (inl (Builtin e), [])
      | inr id =>
          match get_sticker inter id with
          | Some sticker => (inr sticker, [])
          | None => (fetch_sticker guild id, [FetchSticker id])
          end
      end
  end.

End lookup_parsers.

(** ** Reachable registries *)

(** The registry is private to [base.py] and written by [register_parser]
    only: its states are the results of sequences of registration calls,
    [(parser, types, force)]. *)
Definition registered (calls : list (string * list pytype * bool))
    : Registry :=
  foldl (λ reg call, register_parser call.1.1 call.1.2 call.2 reg)
        empty_registry calls.

(** A key is bare when it has no generic origin. *)
Definition is_bare (t : pytype) : bool :=
  match get_origin t with None => true | Some _ => false end.

Definition registry_bare (reg : Registry) : Prop :=
  Forall (λ kv, is_bare kv.1 = true) (_PARSERS reg) ∧
  Forall (λ kv, Forall (λ t, is_bare t = true) kv.2) (_REV_PARSERS reg).

(** [_issubclass type_ keys], spelled out: the builtin accepts the
    arguments and says yes, or it raises and [type_] is one of the keys. *)
Definition compatible `{Builtins} (type_ : pytype) (keys : list pytype) : Prop :=
  issubclass type_ (Tup keys) = Some true ∨
  (issubclass type_ (Tup keys) = None ∧ type_ ∈ keys).

(** ** Statements and runs the properties are about *)

(** One decoded entry of [params]: the field, its raw string, the parser
    bound to the field and the value it produced. *)
Record Decoded := {
  d_param : string;
  d_raw : string;
  d_parser : parser;
  d_value : Value;
}.

(** Decoding entries one after the other with the parser bound to each, as
    the specification describes it; the first failure is the result. *)
Fixpoint decode_all `{Externals} (w : World) (self : ComponentFactory)
    (interaction : Value) (entries : list (string * string))
    : result (list Decoded) :=
  match entries with
  | [] => inr []
  | (param, value) :: entries' =>
      match mapping_items w (parsers self) !! param with
      | None => inl (KeyError param)
      | Some p =>
          v ← parser_loads p interaction value;
          ds ← decode_all w self interaction entries';
          inr ({| d_param := param; d_raw := value;
                  d_parser := p; d_value := v |} :: ds)
      end
  end.

Definition loads_calls (ds : list Decoded) : list Event :=
  (λ d, LoadsCalled (d_parser d) (d_raw d)) <$> ds.

Definition keyword_values (ds : list Decoded) : list (string * Value) :=
  (λ d, (d_param d, d_value d)) <$> ds.

Definition nonempty (entry : string * string) : Prop := entry.2 ≠ "".

#[global] Instance nonempty_dec entry : Decision (nonempty entry).
Proof. unfold nonempty. apply _. Defined.

(** What [__init__] leaves once the policy [(store_by_value, value_type)]
    is chosen: the parser with the value parser that [get_parser] gave, or
    the error of [get_parser]. *)
Definition built (enum_class : EnumClass) (store_by_value : bool)
    (value_type : pytype) (run : result parser * World)
    : result EnumParser * World :=
  match run with
  | (inr value_parser, w') =>
      (inr {| enum_class := enum_class; store_by_value := store_by_value;
              value_type := value_type; value_parser := value_parser |}, w')
  | (inl e, w') => (inl e, w')
  end.

(** The sentence of C9 on explicit policies, as it is written: with one
    shared value type, the caller's [store_by_value] is the parser's. *)
Definition explicit_policy_respected `{Builtins} : Prop :=
  ∀ reg ec vt b w,
    _get_enum_type ec = inr (Some vt) →
    EnumParser_init reg ec (Some b) w = built ec b vt (get_parser reg vt w).

(** The explicit parser of a field that [if not parser] lets through: the
    one the descriptor carries, unless it is falsy. *)
Definition usable_parser `{Builtins} (field : Attribute) : option parser :=
  match fields_get_parser field with
  | Some parser => if truth parser then Some parser else None
  | None => None
  end.

(** The claim C6 as it is written, for a type expression whose collection
    (its origin, or the expression itself when it is a bare class) is
    neither [Union] nor a tuple and has a parser class: the element type is
    the first type argument, or [str] when there is none, and the result is
    that parser class around the element parser, with the collection as
    [collection_type]. *)
Definition resolves_as_collection `{Builtins} (reg : Registry) (type_ : pytype)
    : Prop :=
  ∀ parser_type w,
    let collection := default type_ (get_origin type_) in
    _get_parser_type reg collection = inr parser_type →
    collection ≠ typing_Union →
    issubclass collection (One typing_Tuple) = Some false →
    issubclass collection (One typing_Collection) = Some true →
    get_parser reg type_ w =
      match get_parser reg (default str (head (get_args type_))) w with
      | (inr inner_parser, w') =>
          (inr (Parser (next_oid w') parser_type [inner_parser] (Some collection)),
           bump w')
      | (inl e, w') => (inl e, w')
      end.

(** The claim C3 as it is written: the second call returns the parser
    recorded by the first and leaves the recorded bindings as they are. *)
Definition add_field_idempotent `{Builtins} (reg : Registry)
    (b : ComponentFactoryBuilder) (f : Attribute) (w : World) : Prop :=
  ∀ p1 w1 p2 w2,
    add_field reg b f w = (inr p1, w1) →
    add_field reg b f w1 = (inr p2, w2) →
    p2 = p1 ∧ deref w2 (builder_parsers b) = deref w1 (builder_parsers b).

(** Encoding the fields of a component one after the other with the parser
    bound to each; the first failure is the result. *)
Fixpoint dump_all `{Externals} `{ComponentAccess} (w : World)
    (self : ComponentFactory) (component : Value) (fields : list Attribute)
    : result (list Decoded) :=
  match fields with
  | [] => inr []
  | field :: fields' =>
      value ← getattr component (attr_name field);
      match mapping_items w (parsers self) !! attr_name field with
      | None => inl (KeyError (attr_name field))
      | Some p =>
          s ← parser_dumps p value;
          ds ← dump_all w self component fields';
          inr ({| d_param := attr_name field; d_raw := s;
                  d_parser := p; d_value := value |} :: ds)
      end
  end.

Definition dumps_calls (ds : list Decoded) : list Event :=
  (λ d, DumpsCalled (d_parser d) (d_value d)) <$> ds.

Definition encoded_values (ds : list Decoded) : list (string * string) :=
  (λ d, (d_param d, d_raw d)) <$> ds.

Definition encoded_nonempty (d : Decoded) : Prop := d_raw d ≠ "".

#[global] Instance encoded_nonempty_dec d : Decision (encoded_nonempty d).
Proof. unfold encoded_nonempty. apply _. Defined.

(** An action that only creates objects: identities are never reused, and
    dictionaries and trace are left alone. *)
Definition allocates_only {A} (m : M A) : Prop :=
  ∀ w r w', m w = (r, w') →
    (next_oid w ≤ next_oid w')%nat ∧ dicts w' = dicts w ∧ trace w' = trace w.

(** ** A sample class hierarchy and sample parsers, for concrete runs *)

Module Sample.

(** Each class with its ancestors; what is not listed ([typing.Union]) is
    not a class. *)
Definition mro : list (string * list string) :=
  [ ("object", ["object"]);
    ("int", ["int"; "object"]);
    ("bool", ["bool"; "int"; "object"]);
    ("str", ["str"; "object"]);
    ("NoneType", ["NoneType"; "object"]);
    ("type", ["type"; "object"]);
    ("dict", ["dict"; "collections.abc.Collection"; "object"]);
    ("collections.abc.Collection", ["collections.abc.Collection"; "object"]);
    ("list", ["list"; "collections.abc.Collection"; "object"]);
    ("set", ["set"; "collections.abc.Collection"; "object"]);
    ("tuple", ["tuple"; "collections.abc.Collection"; "object"]);
    ("Base", ["Base"; "object"]);
    ("Derived", ["Derived"; "Base"; "object"]);
    ("Other", ["Other"; "Base"; "object"]);
    ("enum.Enum", ["enum.Enum"; "object"]);
    ("Color", ["Color"; "enum.Enum"; "object"]);
    ("Mixed", ["Mixed"; "enum.Enum"; "object"]);
    ("disnake.flags.BaseFlags", ["disnake.flags.BaseFlags"; "object"]);
    ("Permissions", ["Permissions"; "disnake.flags.BaseFlags"; "object"]) ].

Definition issubclass1 (c d : pytype) : option bool :=
  match c, d with
  | TClass a, (TClass b | TAlias b []) =>
      match PyDict.get a mro, PyDict.get b mro with
      | Some ancestors, Some _ => Some (bool_decide (b ∈ ancestors))
      | _, _ => None
      end
  | _, _ => None
  end.

Fixpoint issubclass_tuple (c : pytype) (ds : list pytype) : option bool :=
  match ds with
  | [] => Some false
  | d :: ds' =>
      match issubclass1 c d with
      | Some true => Some true
      | Some false => issubclass_tuple c ds'
      | None => None
      end
  end.

(** The name [typing] gives the alias of [type]: [typing.Type[int].__name__]
    is ['Type']. The other aliases of the runs below are not asked for
    their names. *)
Definition typing_names : list (string * string) := [ ("type", "Type") ].

(** Every parser object is truthy, but those of a class [EmptyParser],
    which stands for a parser class with a [__len__] that returns 0. *)
Definition builtins : Builtins :=
  {| issubclass c k :=
       match k with
       | One d => issubclass1 c d
       | Tup ds => issubclass_tuple c ds
       end;
     truth p := negb (bool_decide (parser_cls p = "EmptyParser"));
     alias_name origin args := default origin (PyDict.get origin typing_names) |}.

Definition externals : Externals :=
  {| parser_loads p _ s :=
       if decide (parser_cls p = "StringParser") then inr (VStr s)
       else if decide (parser_cls p = "IntParser") then
         if decide (s = "42") then inr (VInt 42) else inl (ParserError s)
       else inl (ParserError s);
     parser_dumps p v :=
       match v with
       | VStr s => inr s
       | _ => inl (ParserError "dumps")
       end;
     component_call c kwargs := inr (VComponent c kwargs) |}.

(** The default parsers of the library, as their classes register them. *)
Definition registry : Registry :=
  registered
    [ ("NoneParser", [TClass "NoneType"], true);
      ("IntParser", [int], true);
      ("StringParser", [str], true);
      ("UnionParser", [typing_Union], true);
      ("TupleParser", [TAlias "tuple" [TClass "typing.Any"; TClass "Ellipsis"]], true);
      ("CollectionParser", [TAlias "collections.abc.Collection" [object]], true) ].

Definition world0 : World := {| next_oid := 0; dicts := ∅; trace := [] |}.

End Sample.

Module SampleBuilder.
Import Sample.

Definition builder : ComponentFactoryBuilder :=
  {| builder_parsers := 0; builder_component := "Component" |}.

(** The world right after [ComponentFactoryBuilder(Component)]. *)
Definition world1 : World :=
  {| next_oid := 1; dicts := {[ 0 := ∅ ]}; trace := [] |}.

Definition page : Attribute :=
  {| attr_name := "page"; attr_type := Some int; attr_parser := None |}.

Definition user_id : Attribute :=
  {| attr_name := "user_id"; attr_type := Some int; attr_parser := None |}.

Definition choice : Attribute :=
  {| attr_name := "choice";
     attr_type := Some (TAlias "typing.Union" [int; str]);
     attr_parser := None |}.

End SampleBuilder.

Module SampleFactory.
Import Sample.

(** A factory over [user_id: int] and [page: int], and a parser for a
    third field that accepts nothing. *)
Definition world : World :=
  {| next_oid := 4;
     dicts := {[ 0 := {[ "user_id" := Parser 1 "IntParser" [] None;
                         "page" := Parser 2 "IntParser" [] None;
                         "note" := Parser 3 "StringParser" [] None ]} ]};
     trace := [] |}.

Definition factory : ComponentFactory :=
  {| parsers := MappingProxyType 0; component := "Component" |}.

End SampleFactory.

Module SampleComponent.
Import Sample.

(** A component class with the fields [user_id] and [note], read from the
    keyword arguments it was made with; its custom id lists the encoded
    fields after the class name. *)
Definition access : ComponentAccess :=
  {| get_fields component_type :=
       [ {| attr_name := "user_id"; attr_type := Some int; attr_parser := None |};
         {| attr_name := "note"; attr_type := Some str; attr_parser := None |} ];
     getattr component name :=
       match component with
       | VComponent _ kwargs =>
           match PyDict.get name kwargs with
           | Some v => inr v
           | None => inl (KeyError name)
           end
       | _ => inl (KeyError name)
       end;
     format_map component_type kwargs :=
       inr (foldl (λ acc kv, acc +:+ ":" +:+ kv.2) (@__name__ builtins component_type) kwargs) |}.

(** A parser protocol in which a [StringParser] writes strings as they are
    and an [IntParser] only knows the number 42. *)
Definition externals : Externals :=
  {| parser_loads := @parser_loads Sample.externals;
     parser_dumps p v :=
       match v with
       | VStr s => if decide (parser_cls p = "StringParser") then inr s
                   else inl (ParserError "dumps")
       | VInt 42 => if decide (parser_cls p = "IntParser") then inr "42"
                    else inl (ParserError "dumps")
       | _ => inl (ParserError "dumps")
       end;
     component_call := @component_call Sample.externals |}.

End SampleComponent.

Module SampleDumps.

Definition instance : Value :=
  VComponent "Component" [("user_id", VInt 42); ("note", VStr "")].

Definition dumped : list Decoded :=
  [ {| d_param := "user_id"; d_raw := "42";
       d_parser := Parser 1 "IntParser" [] None; d_value := VInt 42 |};
    {| d_param := "note"; d_raw := "";
       d_parser := Parser 3 "StringParser" [] None; d_value := VStr "" |} ].

End SampleDumps.

Module SampleLookup.

(** Decimal numbers of one digit, for the runs below. *)
Definition conversions : Conversions :=
  {| int_of_str s :=
       if decide (s = "7") then inr 7%Z
       else if decide (s = "8") then inr 8%Z
       else inl (ValueError ("invalid literal for int() with base 10: " +:+ repr s));
     repr_of_str := repr |}.

Definition emoji7 : Entity := {| entity_type := TClass "Other"; entity_id := 7 |}.

Definition no_request (id : Z) : LookupException + Entity :=
  inl (RequestFailed "not found").

(** An interaction outside a guild, with object 7 in every cache. *)
Definition direct_message : Interaction :=
  {| get_channel id := if decide (id = 7%Z) then Some emoji7 else None;
     fetch_channel := no_request;
     get_emoji id := if decide (id = 7%Z) then Some emoji7 else None;
     get_sticker id := if decide (id = 7%Z) then Some emoji7 else None;
     guild := None |}.

(** The same caches, in a guild. *)
Definition in_guild : Interaction :=
  {| get_channel := get_channel direct_message;
     fetch_channel := no_request;
     get_emoji := get_emoji direct_message;
     get_sticker := get_sticker direct_message;
     guild := Some {| fetch_emoji := no_request; fetch_sticker := no_request |} |}.

End SampleLookup.

Module SampleEnum.

Definition Color : EnumClass :=
  {| enum_cls := TClass "Color"; _member_type_ := Some object;
     members := [("RED", VInt 1); ("GREEN", VInt 2)] |}.

Definition Mixed : EnumClass :=
  {| enum_cls := TClass "Mixed"; _member_type_ := Some object;
     members := [("A", VInt 1); ("B", VStr "b")] |}.

Definition Permissions : EnumClass :=
  {| enum_cls := TClass "Permissions"; _member_type_ := None; members := [] |}.

End SampleEnum.

(** ** Further statements about the registry *)

(** The two indexes agree on what exists: every key listed in a
    reverse-index entry is bound in the forward map, and every parser bound
    in the forward map has a reverse-index entry. *)
Definition indexes_coherent (reg : Registry) : Prop :=
  Forall (λ entry, Forall (λ k, is_Some (PyDict.get k (_PARSERS reg))) entry.2)
         (_REV_PARSERS reg) ∧
  Forall (λ kv, is_Some (PyDict.get kv.2 (_REV_PARSERS reg))) (_PARSERS reg).

(** ** Further statements about parser objects *)

(** The identities of the objects of a parser, inner parsers first. *)
Fixpoint postorder (p : parser) : list nat :=
  match p with
  | Parser oid _ args _ => flat_map postorder args ++ [oid]
  end.

(** The inner parsers of a comprehension are the results of [get_parser]
    on the arguments, in order, each run in the world the previous left. *)
Inductive resolved_in_turn `{Builtins} (reg : Registry)
    : list pytype → list parser → World → World → Prop :=
| resolved_nil w : resolved_in_turn reg [] [] w w
| resolved_cons arg type_args p ps w w1 w2 :
    get_parser reg arg w = (inr p, w1) →
    resolved_in_turn reg type_args ps w1 w2 →
    resolved_in_turn reg (arg :: type_args) (p :: ps) w w2.

(** What a successful run of a resolution leaves: the objects of the result
    are the objects created, in the order of their creation. *)
Definition creates_its_result (m : M parser) : Prop :=
  ∀ w p w', m w = (inr p, w') →
    postorder p = seq (next_oid w) (next_oid w' - next_oid w) ∧
    (next_oid w < next_oid w')%nat.

Definition create_their_results (m : M (list parser)) : Prop :=
  ∀ w ps w', m w = (inr ps, w') →
    flat_map postorder ps = seq (next_oid w) (next_oid w' - next_oid w) ∧
    (next_oid w ≤ next_oid w')%nat.

(** * Properties *)

Module PyDictFacts.
Import PyDict.
Section facts.
Context {K V : Type} `{EqDecision K}.
Implicit Types (k : K) (v : V) (d : list (K * V)).

Lemma get_set_eq k v d : get k (set k v d) = Some v.
Proof.
  induction d as [|[k' v'] d IH]; simpl.
  - by rewrite decide_True.
  - destruct (decide (k = k')) as [->|Hne]; simpl.
    + by rewrite decide_True.
    + by rewrite decide_False.
Qed.

Lemma get_set_ne k k' v d : k ≠ k' → get k' (set k v d) = get k' d.
Proof.
  intros Hne. induction d as [|[k0 v0] d IH]; simpl.
  - by rewrite decide_False.
  - destruct (decide (k = k0)) as [->|Hne0]; simpl.
    + by rewrite !decide_False.
    + by rewrite IH.
Qed.

Lemma get_app k d1 d2 :
  get k (d1 ++ d2) = match get k d1 with Some v => Some v | None => get k d2 end.
Proof.
  induction d1 as [|[k' v'] d1 IH]; simpl; [done|].
  by destruct (decide (k = k')).
Qed.

Lemma get_None_keys k d : get k d = None ↔ k ∉ keys d.
Proof.
  unfold keys. induction d as [|[k' v'] d IH]; simpl.
  - split; [intros _; apply not_elem_of_nil|done].
  - destruct (decide (k = k')) as [->|Hne].
    + split; [done|]. intros Hn. exfalso. apply Hn. left.
    + rewrite IH, not_elem_of_cons. tauto.
Qed.

Lemma get_Some_elem k v d : get k d = Some v → (k, v) ∈ d.
Proof.
  induction d as [|[k' v'] d IH]; simpl; [done|].
  destruct (decide (k = k')) as [->|Hne].
  - intros [= ->]. left.
  - intros ?. right. auto.
Qed.

Lemma get_setdefault k k' v d :
  get k' (setdefault k v d) =
    match get k' d with
    | Some v' => Some v'
    | None => if decide (k' = k) then Some v else None
    end.
Proof.
  unfold setdefault. destruct (get k d) as [v0|] eqn:Hk.
  - destruct (get k' d) eqn:Hk'; [done|].
    destruct (decide (k' = k)) as [->|]; congruence.
  - rewrite get_app. destruct (get k' d); [done|]. simpl.
    by destruct (decide (k' = k)).
Qed.

Lemma setdefault_extends k v d : ∃ added, setdefault k v d = d ++ added.
Proof.
  unfold setdefault. destruct (get k d).
  - exists []. by rewrite app_nil_r.
  - by eexists.
Qed.

Lemma keys_set k v d :
  ∀ k', k' ∈ keys (set k v d) ↔ k' = k ∨ k' ∈ keys d.
Proof.
  unfold keys. intros k'. induction d as [|[k0 v0] d IH]; simpl.
  - set_solver.
  - destruct (decide (k = k0)) as [->|Hne]; simpl.
    + set_solver.
    + rewrite !elem_of_cons, IH. naive_solver.
Qed.

Lemma keys_setdefault k v d :
  ∀ k', k' ∈ keys (setdefault k v d) ↔ k' = k ∨ k' ∈ keys d.
Proof.
  unfold setdefault, keys. intros k'. destruct (get k d) eqn:Hk.
  - split; [auto|]. intros [->|]; [|done].
    apply get_Some_elem in Hk. by apply (list_elem_of_fmap_2 fst) in Hk.
  - rewrite fmap_app. set_solver.
Qed.

Lemma get_foldl_set (p : V) (ks : list K) d k :
  get k (foldl (λ d k', set k' p d) d ks) =
    if bool_decide (k ∈ ks) then Some p else get k d.
Proof.
  revert d. induction ks as [|k0 ks IH]; intros d; simpl; [done|].
  rewrite IH. destruct (decide (k = k0)) as [->|Hne].
  - rewrite get_set_eq, (bool_decide_eq_true_2 (k0 ∈ k0 :: ks)) by left.
    by destruct (bool_decide _).
  - rewrite get_set_ne by done.
    destruct (bool_decide (k ∈ ks)) eqn:Hin.
    + apply bool_decide_eq_true in Hin.
      by rewrite bool_decide_eq_true_2 by (by right).
    + apply bool_decide_eq_false in Hin.
      rewrite bool_decide_eq_false_2; [done|].
      rewrite not_elem_of_cons. done.
Qed.

Lemma get_foldl_setdefault (p : V) (ks : list K) d k :
  get k (foldl (λ d k', setdefault k' p d) d ks) =
    match get k d with
    | Some v => Some v
    | None => if bool_decide (k ∈ ks) then Some p else None
    end.
Proof.
  revert d. induction ks as [|k0 ks IH]; intros d; simpl.
  - by destruct (get k d).
  - rewrite IH, get_setdefault. destruct (get k d); [done|].
    destruct (decide (k = k0)) as [->|Hne].
    + by rewrite bool_decide_eq_true_2 by left.
    + destruct (bool_decide (k ∈ ks)) eqn:Hin.
      * apply bool_decide_eq_true in Hin.
        by rewrite bool_decide_eq_true_2 by (by right).
      * apply bool_decide_eq_false in Hin.
        rewrite bool_decide_eq_false_2; [done|].
        rewrite not_elem_of_cons. done.
Qed.

Lemma foldl_setdefault_extends (p : V) (ks : list K) d :
  ∃ added, foldl (λ d k', setdefault k' p d) d ks = d ++ added ∧
           Forall (λ kv, get kv.1 d = None ∧ kv.2 = p ∧ kv.1 ∈ ks) added.
Proof.
  revert d. induction ks as [|k0 ks IH]; intros d; simpl.
  - exists []. by rewrite app_nil_r.
  - destruct (IH (setdefault k0 p d)) as (added & -> & Hall).
    unfold setdefault in *. destruct (get k0 d) eqn:Hk0.
    + exists added. split; [done|].
      eapply Forall_impl; [exact Hall|]. intros [k1 v1] (?&?&?). simpl in *.
      repeat split; [done..|by right].
    + exists ((k0, p) :: added). rewrite <- app_assoc. split; [done|].
      constructor; [simpl; repeat split; [done..|left]|].
      eapply Forall_impl; [exact Hall|]. intros [k1 v1] (Hg&?&?). simpl in *.
      rewrite get_app in Hg. destruct (get k1 d); [done|].
      repeat split; [done..|by right].
Qed.

Lemma keys_foldl_set (p : V) (ks : list K) d k :
  k ∈ keys (foldl (λ d k', set k' p d) d ks) ↔ k ∈ ks ∨ k ∈ keys d.
Proof.
  revert d. induction ks as [|k0 ks IH]; intros d; simpl.
  - set_solver.
  - rewrite IH, keys_set, elem_of_cons. tauto.
Qed.

Lemma keys_foldl_setdefault (p : V) (ks : list K) d k :
  k ∈ keys (foldl (λ d k', setdefault k' p d) d ks) ↔ k ∈ ks ∨ k ∈ keys d.
Proof.
  revert d. induction ks as [|k0 ks IH]; intros d; simpl.
  - set_solver.
  - rewrite IH, keys_setdefault, elem_of_cons. tauto.
Qed.

Lemma elem_of_set k v d (kv : K * V) :
  kv ∈ set k v d → kv = (k, v) ∨ kv ∈ d.
Proof.
  induction d as [|[k0 v0] d IH]; simpl.
  - set_solver.
  - destruct (decide (k = k0)) as [->|Hne]; rewrite !elem_of_cons; intuition.
Qed.

Lemma elem_of_setdefault k v d (kv : K * V) :
  kv ∈ setdefault k v d → kv = (k, v) ∨ kv ∈ d.
Proof.
  unfold setdefault. destruct (get k d); [auto|]. set_solver.
Qed.

End facts.
End PyDictFacts.

(** ** The registry: [register_parser] and [_get_parser_type] *)

Section registry_properties.
Context `{Builtins}.
Implicit Types (reg : Registry) (parser : string) (types : list pytype).

Lemma origin_or_self_bare t : is_bare (origin_or_self t) = true.
Proof. by destruct t. Qed.

Lemma origin_or_self_idemp t : origin_or_self (origin_or_self t) = origin_or_self t.
Proof. by destruct t. Qed.

Lemma origin_or_self_alias origin args :
  origin_or_self (TAlias origin args) = TClass origin.
Proof. done. Qed.

Lemma Forall_set {K V} `{EqDecision K} (P : K * V → Prop) k v (d : list (K * V)) :
  Forall P d → P (k, v) → Forall P (PyDict.set k v d).
Proof.
  rewrite !Forall_forall. intros Hd Hkv kv Hin.
  apply PyDictFacts.elem_of_set in Hin as [->|Hin]; auto.
Qed.

Lemma Forall_setdefault {K V} `{EqDecision K} (P : K * V → Prop) k v (d : list (K * V)) :
  Forall P d → P (k, v) → Forall P (PyDict.setdefault k v d).
Proof.
  rewrite !Forall_forall. intros Hd Hkv kv Hin.
  apply PyDictFacts.elem_of_setdefault in Hin as [->|Hin]; auto.
Qed.

Lemma register_parser_bare parser types force reg :
  registry_bare reg → registry_bare (register_parser parser types force reg).
Proof.
  intros [Hfwd Hrev].
  assert (Hkeys : Forall (λ t, is_bare t = true) (origin_or_self <$> types)).
  { apply Forall_fmap, Forall_true. intros t. apply origin_or_self_bare. }
  unfold register_parser. destruct force; split; simpl.
  - revert Hfwd. generalize (_PARSERS reg).
    induction Hkeys as [|k ks Hk _ IH]; intros d Hd; simpl; [done|].
    apply IH. by apply Forall_set.
  - by apply Forall_set.
  - revert Hfwd. generalize (_PARSERS reg).
    induction Hkeys as [|k ks Hk _ IH]; intros d Hd; simpl; [done|].
    apply IH. by apply Forall_setdefault.
  - by apply Forall_setdefault.
Qed.

Lemma registered_snoc calls call :
  registered (calls ++ [call]) =
    register_parser call.1.1 call.1.2 call.2 (registered calls).
Proof. unfold registered. by rewrite foldl_app. Qed.

Lemma registered_bare calls : registry_bare (registered calls).
Proof.
  induction calls as [|call calls IH] using rev_ind.
  - split; constructor.
  - rewrite registered_snoc. by apply register_parser_bare.
Qed.

Lemma get_parser_type_exact reg type_ parser :
  PyDict.get type_ (_PARSERS reg) = Some parser →
  _get_parser_type reg type_ = inr parser.
Proof. unfold _get_parser_type. by intros ->. Qed.

Lemma get_forced parser types reg k :
  PyDict.get k (_PARSERS (register_parser parser types true reg)) =
    if bool_decide (k ∈ origin_or_self <$> types) then Some parser
    else PyDict.get k (_PARSERS reg).
Proof. apply PyDictFacts.get_foldl_set. Qed.

Lemma get_filled parser types reg k :
  PyDict.get k (_PARSERS (register_parser parser types false reg)) =
    match PyDict.get k (_PARSERS reg) with
    | Some p => Some p
    | None =>
        if bool_decide (k ∈ origin_or_self <$> types) then Some parser else None
    end.
Proof. apply PyDictFacts.get_foldl_setdefault. Qed.

Lemma get_rev_forced parser types reg p :
  PyDict.get p (_REV_PARSERS (register_parser parser types true reg)) =
    if decide (p = parser) then Some (origin_or_self <$> types)
    else PyDict.get p (_REV_PARSERS reg).
Proof.
  simpl. destruct (decide (p = parser)) as [->|Hne].
  - apply PyDictFacts.get_set_eq.
  - by apply PyDictFacts.get_set_ne.
Qed.

(** C5. Registration with [force] overwrites the forward binding of every
    given (normalised) key and the reverse-index entry of the parser, and
    touches nothing else; registration without [force] only appends
    bindings for keys that were unbound, and an entry for the parser if it
    had none: every existing binding and every existing reverse-index entry
    stays as it was, in place. *)
Theorem register_parser_force_semantics parser types reg :
  let keys := origin_or_self <$> types in
  let forced := register_parser parser types true reg in
  let filled := register_parser parser types false reg in
  (∀ k, PyDict.get k (_PARSERS forced) =
          if bool_decide (k ∈ keys) then Some parser
          else PyDict.get k (_PARSERS reg)) ∧
  (∀ p, PyDict.get p (_REV_PARSERS forced) =
          if decide (p = parser) then Some keys
          else PyDict.get p (_REV_PARSERS reg)) ∧
  (∃ added, _PARSERS filled = _PARSERS reg ++ added ∧
            Forall (λ kv, PyDict.get kv.1 (_PARSERS reg) = None ∧
                          kv.2 = parser ∧ kv.1 ∈ keys) added) ∧
  (∀ k, PyDict.get k (_PARSERS filled) =
          match PyDict.get k (_PARSERS reg) with
          | Some p => Some p
          | None => if bool_decide (k ∈ keys) then Some parser else None
          end) ∧
  (∃ added, _REV_PARSERS filled = _REV_PARSERS reg ++ added) ∧
  (∀ p, PyDict.get p (_REV_PARSERS filled) =
          match PyDict.get p (_REV_PARSERS reg) with
          | Some ks => Some ks
          | None => if decide (p = parser) then Some keys else None
          end).
Proof.
  simpl. repeat split.
  - intros k. apply get_forced.
  - intros p. apply get_rev_forced.
  - apply PyDictFacts.foldl_setdefault_extends.
  - intros k. apply get_filled.
  - apply PyDictFacts.setdefault_extends.
  - intros p. apply PyDictFacts.get_setdefault.
Qed.

(** [emoji.py] defines [GetEmojiParser] and then [EmojiParser], both with
    [is_default_for=(disnake.Emoji,)]: the class defined last is the default,
    and each keeps its reverse-index entry. *)
Example emoji_parsers_registration :
  let reg :=
    __init_subclass__ "EmojiParser" [TClass "disnake.Emoji"]
      (__init_subclass__ "GetEmojiParser" [TClass "disnake.Emoji"]
         empty_registry) in
  _get_parser_type reg (TClass "disnake.Emoji") = inr "EmojiParser" ∧
  default_types reg "GetEmojiParser" = inr [TClass "disnake.Emoji"] ∧
  default_types reg "EmojiParser" = inr [TClass "disnake.Emoji"].
Proof. done. Qed.

Lemma register_parser_origin parser pre origin args post force reg :
  register_parser parser (pre ++ TAlias origin args :: post) force reg =
  register_parser parser (pre ++ TClass origin :: post) force reg.
Proof. unfold register_parser. by rewrite !fmap_app, !fmap_cons. Qed.

(** C10. A generic alias used as a registration key is stored as its bare
    origin: its arguments do not matter to the registration, an exact
    lookup of the bare origin finds what the registration bound (the parser
    itself under [force], and otherwise the parser unless the origin was
    bound already), and every key of every reachable registry, forward map
    and reverse index, is bare. *)
Theorem register_parser_normalizes_keys :
  (∀ parser pre origin args post force reg,
     register_parser parser (pre ++ TAlias origin args :: post) force reg =
     register_parser parser (pre ++ TClass origin :: post) force reg) ∧
  (∀ parser pre origin args post reg,
     _get_parser_type
       (register_parser parser (pre ++ TAlias origin args :: post) true reg)
       (TClass origin) = inr parser) ∧
  (∀ parser pre origin args post reg,
     _get_parser_type
       (register_parser parser (pre ++ TAlias origin args :: post) false reg)
       (TClass origin) =
     inr (default parser (PyDict.get (TClass origin) (_PARSERS reg)))) ∧
  (∀ calls, registry_bare (registered calls)).
Proof.
  split; [|split; [|split]].
  - apply register_parser_origin.
  - intros parser pre origin args post reg. apply get_parser_type_exact.
    rewrite get_forced, bool_decide_eq_true_2; [done|].
    rewrite fmap_app, fmap_cons. set_solver.
  - intros parser pre origin args post reg. apply get_parser_type_exact.
    rewrite get_filled. destruct (PyDict.get _ (_PARSERS reg)); [done|].
    rewrite bool_decide_eq_true_2; [done|].
    rewrite fmap_app, fmap_cons. set_solver.
  - apply registered_bare.
Qed.

End registry_properties.

Section resolution.
Context `{Builtins}.
Implicit Types (reg : Registry) (keys : list pytype).

Lemma _issubclass_compatible (type_ : pytype) keys :
  _issubclass type_ (Tup keys) = true ↔ compatible type_ keys.
Proof.
  unfold _issubclass, compatible.
  destruct (issubclass type_ (Tup keys)) as [b|].
  - split; [intros ->; by left|]. intros [[=]|[[=] _]]. done.
  - rewrite existsb_exists. split.
    + intros (k & Hin & Heq). right. split; [done|].
      apply bool_decide_eq_true in Heq as ->. by apply list_elem_of_In.
    + intros [[=]|[_ Hin]]. exists type_. split.
      * by apply list_elem_of_In.
      * by apply bool_decide_eq_true.
Qed.

Lemma scan_rev_first (type_ : pytype) pre parser keys post :
  Forall (λ entry, _issubclass type_ (Tup entry.2) = false) pre →
  _issubclass type_ (Tup keys) = true →
  scan_rev type_ (pre ++ (parser, keys) :: post) = Some parser.
Proof.
  intros Hpre Hk. induction Hpre as [|[p ks] pre Hp _ IH]; simpl in *.
  - by rewrite Hk.
  - by rewrite Hp.
Qed.

Lemma scan_rev_miss (type_ : pytype) items :
  Forall (λ entry, _issubclass type_ (Tup entry.2) = false) items →
  scan_rev type_ items = None.
Proof.
  induction 1 as [|[p ks] items Hp _ IH]; simpl in *; [done|]. by rewrite Hp.
Qed.

Lemma scan_rev_set (type_ : pytype) parser keys items :
  Forall (λ entry, entry.1 ≠ parser →
                   _issubclass type_ (Tup entry.2) = false) items →
  _issubclass type_ (Tup keys) = true →
  scan_rev type_ (PyDict.set parser keys items) = Some parser.
Proof.
  intros Hall Hk. induction Hall as [|[p ks] items Hp _ IH]; simpl in *.
  - by rewrite Hk.
  - destruct (decide (parser = p)) as [->|Hne]; simpl.
    + by rewrite Hk.
    + rewrite Hp by done. done.
Qed.

Lemma scan_rev_app (type_ : pytype) items more parser :
  scan_rev type_ items = Some parser →
  scan_rev type_ (items ++ more) = Some parser.
Proof.
  induction items as [|[p ks] items IH]; simpl; [done|].
  by destruct (_issubclass type_ (Tup ks)).
Qed.

Lemma set_fresh_key {K V} `{EqDecision K} (k : K) (v : V) (d : list (K * V)) :
  PyDict.get k d = None → PyDict.set k v d = d ++ [(k, v)].
Proof.
  induction d as [|[k' v'] d IH]; simpl; [done|].
  destruct (decide (k = k')); [done|]. intros ?. by rewrite IH.
Qed.

Lemma get_parser_plain_run reg (type_ : pytype) w :
  get_parser_plain reg type_ w =
    match _get_parser_type reg type_ with
    | inr cls => (inr (Parser (next_oid w) cls [] None), bump w)
    | inl e => (inl e, w)
    end.
Proof.
  unfold get_parser_plain, mbind, M_bind, lift.
  by destruct (_get_parser_type reg type_).
Qed.

(** C1. Resolution of a type without generic arguments: an exact forward
    binding wins; otherwise the reverse index is scanned in order and the
    first parser whose keys are compatible with the requested type is
    returned, where compatible is what [_issubclass] decides: the builtin
    says the type is a subclass of one of the keys, or the builtin rejects
    the arguments and the type is one of the keys; with no compatible
    entry the lookup raises a [TypeError] that names the type. [get_parser]
    returns a default instance of the class so found. In particular, after
    registering [X] for [base] and then a new parser [Y] for [derived],
    [derived] resolves to [Y], and a type compatible with [base], without
    binding of its own and with no compatible entry of another parser in the
    registry before, resolves to [X]; never the other way round. *)
Theorem get_parser_type_resolution :
  (∀ type_ keys, _issubclass type_ (Tup keys) = true ↔ compatible type_ keys) ∧
  (∀ reg type_,
     get_origin type_ = None →
     (∀ parser,
        PyDict.get type_ (_PARSERS reg) = Some parser →
        _get_parser_type reg type_ = inr parser) ∧
     (∀ pre parser keys post,
        PyDict.get type_ (_PARSERS reg) = None →
        _REV_PARSERS reg = pre ++ (parser, keys) :: post →
        Forall (λ entry, _issubclass type_ (Tup entry.2) = false) pre →
        _issubclass type_ (Tup keys) = true →
        _get_parser_type reg type_ = inr parser) ∧
     (PyDict.get type_ (_PARSERS reg) = None →
      Forall (λ entry, _issubclass type_ (Tup entry.2) = false)
             (_REV_PARSERS reg) →
      _get_parser_type reg type_ =
        inl (TypeError ("No parser available for type "
                        +:+ repr (__name__ type_) +:+ "."))) ∧
     (∀ w, get_parser reg type_ w =
             match _get_parser_type reg type_ with
             | inr cls => (inr (Parser (next_oid w) cls [] None), bump w)
             | inl e => (inl e, w)
             end)) ∧
  (∀ reg0 X Y base derived other,
     X ≠ Y →
     let reg := register_parser Y [TClass derived] true
                  (register_parser X [TClass base] true reg0) in
     _get_parser_type reg (TClass derived) = inr Y ∧
     _get_parser_type reg (TClass derived) ≠ inr X ∧
     (PyDict.get Y (_REV_PARSERS reg0) = None →
      PyDict.get (TClass other) (_PARSERS reg0) = None →
      Forall (λ entry, entry.1 ≠ X →
                       _issubclass (TClass other) (Tup entry.2) = false)
             (_REV_PARSERS reg0) →
      other ≠ base → other ≠ derived →
      _issubclass (TClass other) (Tup [TClass base]) = true →
      _get_parser_type reg (TClass other) = inr X ∧
      _get_parser_type reg (TClass other) ≠ inr Y)).
Proof.
  split; [apply _issubclass_compatible|]. split.
  - intros reg type_ Horigin. repeat split.
    + intros parser. apply get_parser_type_exact.
    + intros pre parser keys post Hmiss Hrev Hpre Hk.
      unfold _get_parser_type. rewrite Hmiss, Hrev.
      by rewrite (scan_rev_first _ _ _ _ _ Hpre Hk).
    + intros Hmiss Hall. unfold _get_parser_type.
      by rewrite Hmiss, (scan_rev_miss _ _ Hall).
    + intros w. destruct type_; [|done]. apply get_parser_plain_run.
  - intros reg0 X Y base derived other HXY reg.
    assert (Hd : _get_parser_type reg (TClass derived) = inr Y).
    { apply get_parser_type_exact. subst reg.
      rewrite get_forced, bool_decide_eq_true_2; [done|]. simpl. left. }
    split; [done|]. split; [rewrite Hd; congruence|].
    intros HY Hfwd Hrev Hob Hod Hsub.
    assert (Ho : _get_parser_type reg (TClass other) = inr X).
    { unfold _get_parser_type. subst reg. rewrite !get_forced.
      rewrite !bool_decide_eq_false_2
        by (simpl; intros [[=]|[]%elem_of_nil]%elem_of_cons; done).
      rewrite Hfwd.
      unfold register_parser at 1. simpl.
      rewrite set_fresh_key.
      - erewrite scan_rev_app; [done|]. by apply scan_rev_set.
      - rewrite PyDictFacts.get_set_ne by done. exact HY. }
    split; [done|]. rewrite Ho. congruence.
Qed.

End resolution.

(** A run of C1 on the sample registry: [int] has a binding, [bool] falls
    back to the parser of [int], [Base] has no parser; and the precedence
    scenario from the empty registry. *)
Lemma get_parser_type_resolution_witness :
  @_get_parser_type Sample.builtins Sample.registry int = inr "IntParser" ∧
  @_get_parser_type Sample.builtins Sample.registry (TClass "bool") =
    inr "IntParser" ∧
  @_get_parser_type Sample.builtins Sample.registry (TClass "Base") =
    inl (TypeError "No parser available for type 'Base'.") ∧
  (let reg := @register_parser "Y" [TClass "Derived"] true
                (@register_parser "X" [TClass "Base"] true empty_registry) in
   @_get_parser_type Sample.builtins reg (TClass "Derived") = inr "Y" ∧
   @_get_parser_type Sample.builtins reg (TClass "Other") = inr "X").
Proof.
  destruct (@get_parser_type_resolution Sample.builtins) as (_ & Hres & Hscen).
  split; [|split; [|split]].
  - destruct (Hres Sample.registry int eq_refl) as (Hexact & _).
    apply Hexact. reflexivity.
  - destruct (Hres Sample.registry (TClass "bool") eq_refl) as (_ & Hfirst & _).
    apply (Hfirst [("NoneParser", [TClass "NoneType"])] "IntParser" [int]
                  [("StringParser", [str]); ("UnionParser", [typing_Union]);
                   ("TupleParser", [TClass "tuple"]);
                   ("CollectionParser", [TClass "collections.abc.Collection"])]).
    + reflexivity.
    + reflexivity.
    + repeat constructor.
    + reflexivity.
  - destruct (Hres Sample.registry (TClass "Base") eq_refl) as (_ & _ & Hmiss & _).
    apply Hmiss.
    + reflexivity.
    + repeat constructor.
  - destruct (Hscen empty_registry "X" "Y" "Base" "Derived" "Other")
      as (Hd & _ & Ho); [discriminate|].
    split; [exact Hd|].
    apply Ho; [reflexivity|reflexivity|constructor|discriminate|discriminate
              |reflexivity].
Defined.

(** ** The generic resolver: [get_parser] *)

Section resolver.
Context `{Builtins}.

(** The collection branch of [get_parser], in the shape of the source:
    [inner_type = next(iter(type_args), str)],
    [inner_parser = get_parser(inner_type)],
    [parser_type(inner_parser, collection_type=origin)]. *)
Lemma get_parser_collection_branch reg origin type_args parser_type w :
  _get_parser_type reg (TClass origin) = inr parser_type →
  TClass origin ≠ typing_Union →
  issubclass (TClass origin) (One typing_Tuple) = Some false →
  issubclass (TClass origin) (One typing_Collection) = Some true →
  get_parser reg (TAlias origin type_args) w =
    (inner_parser ← get_parser reg (default str (head type_args));
     construct parser_type [inner_parser] (Some (TClass origin))) w.
Proof.
  intros Hpt Hunion Htuple Hcoll. simpl.
  unfold mbind at 1, M_bind at 1, lift at 1. rewrite Hpt.
  rewrite decide_False by done.
  unfold mbind at 1, M_bind at 1, lift at 1, issubclass_or_raise at 1.
  rewrite Htuple.
  unfold mbind at 1, M_bind at 1, lift at 1, issubclass_or_raise at 1.
  rewrite Hcoll.
  by destruct type_args.
Qed.

(** C6, as amended. For a generic alias [origin[type_args]] of a
    homogeneous collection (a [Collection] subclass that is neither [Union]
    nor a [Tuple] subclass, with a parser class [parser_type] found for its
    origin), [get_parser] resolves the first type argument, or [str] when
    the alias has none, through [get_parser] itself, and returns a new
    instance of [parser_type] built from that single inner parser with
    [collection_type] set to the requested origin; a failure of the inner
    resolution propagates. The bare collection class [origin], which is no
    alias, is resolved as a plain type: to the default instance of
    [parser_type], without inner parser and without [collection_type]. *)
Theorem get_parser_homogeneous_collection reg origin type_args parser_type w :
  _get_parser_type reg (TClass origin) = inr parser_type →
  TClass origin ≠ typing_Union →
  issubclass (TClass origin) (One typing_Tuple) = Some false →
  issubclass (TClass origin) (One typing_Collection) = Some true →
  get_parser reg (TAlias origin type_args) w =
    match get_parser reg (default str (head type_args)) w with
    | (inr inner_parser, w') =>
        (inr (Parser (next_oid w') parser_type [inner_parser]
                     (Some (TClass origin))),
         bump w')
    | (inl e, w') => (inl e, w')
    end ∧
  get_parser reg (TClass origin) w =
    (inr (Parser (next_oid w) parser_type [] None), bump w).
Proof.
  intros Hpt Hunion Htuple Hcoll. split.
  - rewrite (get_parser_collection_branch _ _ _ _ _ Hpt Hunion Htuple Hcoll).
    unfold mbind, M_bind.
    by destruct (get_parser reg (default str (head type_args)) w) as [[e|p] w'].
  - change (get_parser reg (TClass origin)) with (get_parser_plain reg (TClass origin)).
    by rewrite get_parser_plain_run, Hpt.
Qed.

End resolver.

(** C6 fails as written on the bare class [list]: it is a collection
    without type argument, and it gets the default [CollectionParser], with
    no parser for [str] inside and no [collection_type]. *)
Lemma resolves_as_collection_counterexample :
  ¬ @resolves_as_collection Sample.builtins Sample.registry (TClass "list").
Proof.
  intros Hclaim.
  specialize (Hclaim "CollectionParser" Sample.world0 eq_refl).
  discriminate Hclaim; [discriminate|reflexivity|reflexivity].
Qed.

(** The amended C6 on the sample registry: [List[int]], the bare
    [typing.Set], and the bare class [list]. *)
Lemma get_parser_homogeneous_collection_witness :
  @get_parser Sample.builtins Sample.registry (TAlias "list" [int]) Sample.world0 =
    (inr (Parser 1 "CollectionParser" [Parser 0 "IntParser" [] None]
                 (Some (TClass "list"))),
     {| next_oid := 2; dicts := ∅; trace := [] |}) ∧
  @get_parser Sample.builtins Sample.registry (TAlias "set" []) Sample.world0 =
    (inr (Parser 1 "CollectionParser" [Parser 0 "StringParser" [] None]
                 (Some (TClass "set"))),
     {| next_oid := 2; dicts := ∅; trace := [] |}) ∧
  @get_parser Sample.builtins Sample.registry (TClass "list") Sample.world0 =
    (inr (Parser 0 "CollectionParser" [] None),
     {| next_oid := 1; dicts := ∅; trace := [] |}).
Proof.
  split; [|split].
  - rewrite (proj1 (@get_parser_homogeneous_collection Sample.builtins
               Sample.registry "list" [int] "CollectionParser" Sample.world0
               eq_refl ltac:(discriminate) eq_refl eq_refl)).
    reflexivity.
  - rewrite (proj1 (@get_parser_homogeneous_collection Sample.builtins
               Sample.registry "set" [] "CollectionParser" Sample.world0
               eq_refl ltac:(discriminate) eq_refl eq_refl)).
    reflexivity.
  - rewrite (proj2 (@get_parser_homogeneous_collection Sample.builtins
               Sample.registry "list" [] "CollectionParser" Sample.world0
               eq_refl ltac:(discriminate) eq_refl eq_refl)).
    reflexivity.
Defined.

(** ** What [get_parser] does to the world *)

Section resolver_effects.
Context `{Builtins}.

Lemma pytype_nested_ind (P : pytype → Prop) :
  (∀ name, P (TClass name)) →
  (∀ origin args, Forall P args → P (TAlias origin args)) →
  ∀ t, P t.
Proof.
  intros Hclass Halias. fix IH 1. intros [name|origin args].
  - apply Hclass.
  - apply Halias. induction args as [|a args IHargs]; constructor.
    + apply IH.
    + exact IHargs.
Qed.

Lemma allocates_only_ret {A} (x : A) : allocates_only (mret x).
Proof. intros w r w' [= <- <-]. done. Qed.

Lemma allocates_only_raise {A} e : allocates_only (@raise A e).
Proof. intros w r w' [= <- <-]. done. Qed.

Lemma allocates_only_lift {A} (x : result A) : allocates_only (lift x).
Proof. intros w r w' [= <- <-]. done. Qed.

Lemma allocates_only_bind {A B} (m : M A) (f : A → M B) :
  allocates_only m → (∀ x, allocates_only (f x)) → allocates_only (m ≫= f).
Proof.
  intros Hm Hf w r w'. unfold mbind, M_bind.
  destruct (m w) as [[e|x] w1] eqn:Hrun.
  - intros [= <- <-]. by apply (Hm _ _ _ Hrun).
  - intros Hrun'. destruct (Hm _ _ _ Hrun) as (? & Hd & Ht).
    destruct (Hf _ _ _ _ Hrun') as (? & Hd' & Ht').
    split; [lia|]. split; congruence.
Qed.

Lemma allocates_only_construct cls args ct : allocates_only (construct cls args ct).
Proof. intros w r w' [= <- <-]. simpl. split; [lia|done]. Qed.

Lemma allocates_only_plain reg t : allocates_only (get_parser_plain reg t).
Proof.
  apply allocates_only_bind; [apply allocates_only_lift|].
  intros cls. apply allocates_only_construct.
Qed.

(** [get_parser] on an alias, with the list comprehension named. *)
Lemma get_parser_alias reg o type_args :
  get_parser reg (TAlias o type_args) =
    (parser_type ← lift (_get_parser_type reg (TClass o));
     if decide (TClass o = typing_Union) then
       inner_parsers ← get_parsers reg type_args;
       construct parser_type inner_parsers None
     else
       is_tuple ← lift (issubclass_or_raise (TClass o) (One typing_Tuple));
       if is_tuple : bool then
         inner_parsers ← get_parsers reg type_args;
         construct parser_type inner_parsers None
       else
         is_collection ← lift (issubclass_or_raise (TClass o) (One typing_Collection));
         if is_collection : bool then
           inner_parser ←
             match type_args with
             | [] => get_parser_plain reg str
             | inner_type :: _ => get_parser reg inner_type
             end;
           construct parser_type [inner_parser] (Some (TClass o))
         else
           raise (TypeError ("Coult not create a parser for type "
                             +:+ repr (__name__ (TAlias o type_args)) +:+ "."))).
Proof. reflexivity. Qed.

Lemma allocates_only_get_parsers reg type_args :
  Forall (λ t, allocates_only (get_parser reg t)) type_args →
  allocates_only (get_parsers reg type_args).
Proof.
  induction 1 as [|t ts Ht _ IH]; simpl; [apply allocates_only_ret|].
  apply allocates_only_bind; [done|]. intros p.
  apply allocates_only_bind; [done|]. intros ps. apply allocates_only_ret.
Qed.

Lemma allocates_only_get_parser reg t : allocates_only (get_parser reg t).
Proof.
  induction t as [name|origin args IH] using pytype_nested_ind.
  - apply allocates_only_plain.
  - rewrite get_parser_alias.
    apply allocates_only_bind; [apply allocates_only_lift|]. intros pt.
    pose proof (allocates_only_get_parsers reg args IH) as Hargs.
    destruct (decide _).
    { apply allocates_only_bind; [done|]. intros ?. apply allocates_only_construct. }
    apply allocates_only_bind; [apply allocates_only_lift|]. intros [].
    { apply allocates_only_bind; [done|]. intros ?. apply allocates_only_construct. }
    apply allocates_only_bind; [apply allocates_only_lift|]. intros [].
    + apply allocates_only_bind; [|intros ?; apply allocates_only_construct].
      destruct IH; [apply allocates_only_plain|done].
    + apply allocates_only_raise.
Qed.

End resolver_effects.

(** ** The builder: [add_field] and [build] *)

Section builder_properties.
Context `{Builtins}.

Lemma deref_set_item ref k v w :
  is_Some (dicts w !! ref) →
  deref (set_item ref k v w) ref = <[k := v]> (deref w ref).
Proof.
  intros [d Hd]. unfold deref, set_item. simpl.
  by rewrite lookup_alter_eq, Hd.
Qed.

Lemma is_Some_set_item ref k v w ref' :
  is_Some (dicts w !! ref') → is_Some (dicts (set_item ref k v w) !! ref').
Proof.
  intros [d Hd]. simpl. destruct (decide (ref = ref')) as [->|Hne].
  - rewrite lookup_alter_eq, Hd. by eexists.
  - rewrite lookup_alter_ne by done. by eexists.
Qed.

Lemma set_item_twice ref k v w :
  dicts (set_item ref k v (set_item ref k v w)) = dicts (set_item ref k v w).
Proof.
  simpl. apply map_eq. intros i. destruct (decide (i = ref)) as [->|Hne].
  - rewrite !lookup_alter_eq. destruct (dicts w !! ref); simpl; [|done].
    by rewrite insert_insert_eq.
  - by rewrite !lookup_alter_ne.
Qed.

Lemma add_field_explicit reg b f p w :
  usable_parser f = Some p →
  add_field reg b f w = (inr p, set_item (builder_parsers b) (attr_name f) p w).
Proof.
  unfold add_field, usable_parser.
  destruct (fields_get_parser f) as [q|]; [|done].
  destruct (truth q); [|done]. by intros [= ->].
Qed.

Lemma build_parser_run reg f w :
  build_parser reg f w =
    match get_parser reg (default str (attr_type f)) w with
    | (inr resolved, w') =>
        (inr (Parser (next_oid w') (parser_cls resolved) [] None), bump w')
    | (inl e, w') => (inl e, w')
    end.
Proof.
  unfold build_parser, mbind, M_bind.
  by destruct (get_parser reg (default str (attr_type f)) w) as [[e|resolved] w'].
Qed.

Lemma add_field_resolved reg b f w :
  usable_parser f = None →
  add_field reg b f w =
    match get_parser reg (default str (attr_type f)) w with
    | (inr resolved, w') =>
        let p := Parser (next_oid w') (parser_cls resolved) [] None in
        (inr p, set_item (builder_parsers b) (attr_name f) p (bump w'))
    | (inl e, w') => (inl e, w')
    end.
Proof.
  intros Hnone.
  assert (Hrun : add_field reg b f w =
            match build_parser reg f w with
            | (inr p, w') =>
                (inr p, set_item (builder_parsers b) (attr_name f) p w')
            | (inl e, w') => (inl e, w')
            end).
  { unfold add_field, usable_parser in *.
    destruct (fields_get_parser f) as [q|].
    - destruct (truth q); [done|]. unfold mbind, M_bind.
      by destruct (build_parser reg f w) as [[e|p] w'].
    - unfold mbind, M_bind. by destruct (build_parser reg f w) as [[e|p] w']. }
  rewrite Hrun, build_parser_run.
  by destruct (get_parser reg (default str (attr_type f)) w) as [[e|resolved] w'].
Qed.

(** Whatever [add_field] returns is what it has just stored under the
    field's name, over whatever was there. *)
Lemma add_field_records reg b f w p w' :
  is_Some (dicts w !! builder_parsers b) →
  add_field reg b f w = (inr p, w') →
  deref w' (builder_parsers b) = <[attr_name f := p]> (deref w (builder_parsers b)) ∧
  is_Some (dicts w' !! builder_parsers b).
Proof.
  intros Hb. destruct (usable_parser f) as [q|] eqn:Hq.
  - rewrite (add_field_explicit _ _ _ _ _ Hq). intros [= <- <-].
    split; [by apply deref_set_item|by apply is_Some_set_item].
  - rewrite (add_field_resolved _ _ _ _ Hq).
    destruct (get_parser _ _ w) as [[e|resolved] w1] eqn:Hrun; [done|].
    destruct (allocates_only_get_parser _ _ _ _ _ Hrun) as (_ & Hd & _).
    intros [= <- <-]. split.
    + rewrite deref_set_item by (simpl; by rewrite Hd).
      unfold deref. simpl. by rewrite Hd.
    + apply is_Some_set_item. simpl. by rewrite Hd.
Qed.

(** Without an explicit parser, [add_field] returns an object created after
    everything that existed when it was called, built with no arguments. *)
Lemma add_field_resolved_fresh reg b f w p w' :
  usable_parser f = None →
  add_field reg b f w = (inr p, w') →
  (next_oid w ≤ parser_oid p < next_oid w')%nat ∧
  parser_args p = [] ∧ parser_collection_type p = None.
Proof.
  intros Hq. rewrite (add_field_resolved _ _ _ _ Hq).
  destruct (get_parser _ _ w) as [[e|resolved] w1] eqn:Hrun; [done|].
  destruct (allocates_only_get_parser _ _ _ _ _ Hrun) as (Hle & _ & _).
  intros [= <- <-]. simpl. split; [lia|done].
Qed.

(** C3, as amended. A second [add_field] for the same field name stores
    the parser of the second call over the one recorded by the first. When
    both descriptors carry the same explicit parser and it is truthy, it is
    returned again and the dictionaries do not change; when the second
    descriptor carries none, or a falsy one, the parser returned is a new
    object, and if the first carried no truthy one either it differs from
    the one recorded first, which it replaces. *)
Theorem add_field_same_name reg b f1 f2 w p1 w1 p2 w2 :
  is_Some (dicts w !! builder_parsers b) →
  attr_name f2 = attr_name f1 →
  add_field reg b f1 w = (inr p1, w1) →
  add_field reg b f2 w1 = (inr p2, w2) →
  deref w1 (builder_parsers b) !! attr_name f1 = Some p1 ∧
  deref w2 (builder_parsers b) =
    <[attr_name f1 := p2]> (deref w1 (builder_parsers b)) ∧
  (∀ p, attr_parser f1 = Some p → attr_parser f2 = Some p → truth p = true →
        p2 = p1 ∧ dicts w2 = dicts w1) ∧
  (usable_parser f2 = None →
     (next_oid w1 ≤ parser_oid p2)%nat ∧
     (usable_parser f1 = None →
        p2 ≠ p1 ∧ deref w2 (builder_parsers b) ≠ deref w1 (builder_parsers b))).
Proof.
  intros Hb Hname Hrun1 Hrun2.
  destruct (add_field_records _ _ _ _ _ _ Hb Hrun1) as (Hrec1 & Hb1).
  destruct (add_field_records _ _ _ _ _ _ Hb1 Hrun2) as (Hrec2 & _).
  rewrite Hname in Hrec2.
  assert (Hp1 : deref w1 (builder_parsers b) !! attr_name f1 = Some p1)
    by (by rewrite Hrec1, lookup_insert_eq).
  split; [done|]. split; [done|]. split.
  - intros p Hq1 Hq2 Ht.
    assert (Hu1 : usable_parser f1 = Some p)
      by (unfold usable_parser, fields_get_parser; by rewrite Hq1, Ht).
    assert (Hu2 : usable_parser f2 = Some p)
      by (unfold usable_parser, fields_get_parser; by rewrite Hq2, Ht).
    rewrite (add_field_explicit _ _ _ _ _ Hu1) in Hrun1.
    rewrite (add_field_explicit _ _ _ _ _ Hu2) in Hrun2.
    injection Hrun1 as <- <-. injection Hrun2 as <- <-.
    split; [done|]. rewrite Hname. apply set_item_twice.
  - intros Hq2.
    destruct (add_field_resolved_fresh _ _ _ _ _ _ Hq2 Hrun2) as ((Hlo & _) & _).
    split; [done|]. intros Hq1.
    destruct (add_field_resolved_fresh _ _ _ _ _ _ Hq1 Hrun1) as ((_ & Hhi) & _).
    assert (Hne : p2 ≠ p1) by (intros ->; lia).
    split; [done|]. intros Heq.
    rewrite Heq in Hrec2. rewrite Hrec2, lookup_insert_eq in Hp1. congruence.
Qed.

(** After [build], the factory reads the dictionary the builder goes on
    writing to: a later [add_field] shows through the factory. *)
Lemma add_field_after_build reg b f w p w' :
  is_Some (dicts w !! builder_parsers b) →
  add_field reg b f w = (inr p, w') →
  mapping_items w' (parsers (build b)) =
    <[attr_name f := p]> (mapping_items w (parsers (build b))).
Proof. intros Hb Hrun. by apply (add_field_records _ _ _ _ _ _ Hb Hrun). Qed.

End builder_properties.

(** C3 fails as written: a field without explicit parser, added twice. *)
Lemma add_field_idempotent_counterexample :
  ¬ @add_field_idempotent Sample.builtins Sample.registry
      SampleBuilder.builder SampleBuilder.page SampleBuilder.world1.
Proof.
  intros Hclaim.
  destruct (Hclaim (Parser 2 "IntParser" [] None)
              (set_item 0 "page" (Parser 2 "IntParser" [] None)
                 (bump (bump SampleBuilder.world1)))
              (Parser 4 "IntParser" [] None)
              (set_item 0 "page" (Parser 4 "IntParser" [] None)
                 (bump (bump (set_item 0 "page" (Parser 2 "IntParser" [] None)
                                (bump (bump SampleBuilder.world1)))))))
    as [Heq _]; [reflexivity|reflexivity|discriminate Heq].
Qed.

(** The amended C3 on the same run. *)
Lemma add_field_same_name_witness :
  ∃ p1 w1 p2 w2,
    @add_field Sample.builtins Sample.registry SampleBuilder.builder
       SampleBuilder.page SampleBuilder.world1 = (inr p1, w1) ∧
    @add_field Sample.builtins Sample.registry SampleBuilder.builder
       SampleBuilder.page w1 = (inr p2, w2) ∧
    p2 ≠ p1 ∧
    deref w2 0 = <["page" := p2]> (deref w1 0).
Proof.
  eexists _, _, _, _. split; [reflexivity|]. split; [reflexivity|].
  edestruct (@add_field_same_name Sample.builtins Sample.registry
               SampleBuilder.builder SampleBuilder.page SampleBuilder.page
               SampleBuilder.world1) as (_ & Hrec & _ & Hnew).
  - by eexists.
  - reflexivity.
  - reflexivity.
  - reflexivity.
  - split; [|exact Hrec]. by apply Hnew.
Defined.

(** A descriptor that carries a falsy parser is treated as one that
    carries none: the parser is built from the declared type. *)
Example add_field_falsy_explicit_parser :
  let field := {| attr_name := "page"; attr_type := Some int;
                  attr_parser := Some (Parser 0 "EmptyParser" [] None) |} in
  (@add_field Sample.builtins Sample.registry SampleBuilder.builder field
     SampleBuilder.world1).1 = inr (Parser 2 "IntParser" [] None).
Proof. reflexivity. Qed.

(** C2, on a field declared [Union[int, str]] without explicit parser: the
    resolver builds a [UnionParser] around an [IntParser] and a
    [StringParser], but what [add_field] returns and records is
    [.default()] of it, a new [UnionParser] built without inner parsers. *)
Theorem add_field_union_field :
  let resolved :=
    @get_parser Sample.builtins Sample.registry
      (TAlias "typing.Union" [int; str]) SampleBuilder.world1 in
  let run :=
    @add_field Sample.builtins Sample.registry SampleBuilder.builder
      SampleBuilder.choice SampleBuilder.world1 in
  resolved.1 =
    inr (Parser 3 "UnionParser"
           [Parser 1 "IntParser" [] None; Parser 2 "StringParser" [] None] None) ∧
  run.1 = inr (Parser 4 "UnionParser" [] None) ∧
  deref run.2 0 !! "choice" = Some (Parser 4 "UnionParser" [] None).
Proof. repeat split. Qed.

(** C4, on a run: a factory is built after [user_id] was added; adding
    [page] to the builder afterwards adds [page] to what the factory sees,
    and adding [user_id] again replaces the parser the factory sees for it. *)
Theorem build_then_add_field :
  let add f w :=
    (@add_field Sample.builtins Sample.registry SampleBuilder.builder f w).2 in
  let factory := build SampleBuilder.builder in
  let w2 := add SampleBuilder.user_id SampleBuilder.world1 in
  let w3 := add SampleBuilder.page w2 in
  let w4 := add SampleBuilder.user_id w3 in
  mapping_items w2 (parsers factory) !! "user_id" = Some (Parser 2 "IntParser" [] None) ∧
  mapping_items w2 (parsers factory) !! "page" = None ∧
  mapping_items w3 (parsers factory) !! "page" = Some (Parser 4 "IntParser" [] None) ∧
  mapping_items w4 (parsers factory) !! "user_id" = Some (Parser 6 "IntParser" [] None).
Proof. repeat split. Qed.

(** ** The factory: [loads] *)

Section loads_properties.
Context `{Externals}.
Implicit Types (self : ComponentFactory) (interaction : Value).

Lemma logged_logged es1 es2 w : logged es2 (logged es1 w) = logged (es1 ++ es2) w.
Proof. unfold logged. simpl. by rewrite app_assoc. Qed.

Lemma logged_nil w : logged [] w = w.
Proof. destruct w. unfold logged. simpl. by rewrite app_nil_r. Qed.

Lemma loads_param_run self interaction param value w :
  loads_param self interaction param value w =
    match mapping_items w (parsers self) !! param with
    | None => (inl (KeyError param), w)
    | Some p => (parser_loads p interaction value, logged [LoadsCalled p value] w)
    end.
Proof.
  unfold loads_param, mbind, M_bind, mapping_getitem.
  destruct (mapping_items w (parsers self) !! param) as [p|]; [|done].
  simpl. unfold lift. by destruct (parser_loads p interaction value).
Qed.

Lemma decode_all_entries w self interaction entries ds :
  decode_all w self interaction entries = inr ds →
  (λ d, (d_param d, d_raw d)) <$> ds = entries.
Proof.
  revert ds. induction entries as [|[param value] entries IH]; intros ds; simpl.
  - by intros [= <-].
  - destruct (mapping_items w (parsers self) !! param) as [p|]; [|done].
    unfold mbind, result_bind.
    destruct (parser_loads p interaction value) as [e|v]; [done|].
    destruct (decode_all w self interaction entries) as [e|ds']; [done|].
    intros [= <-]. rewrite fmap_cons. simpl. f_equal. by apply IH.
Qed.

Lemma decode_all_logged es w self interaction entries :
  decode_all (logged es w) self interaction entries =
  decode_all w self interaction entries.
Proof.
  induction entries as [|[param value] entries IH]; [done|].
  cbn [decode_all]. by rewrite IH.
Qed.

Lemma loads_comprehension_cons self interaction param value items kwargs w :
  loads_comprehension self interaction ((param, value) :: items) kwargs w =
    if bool_decide (value ≠ "") then
      match loads_param self interaction param value w with
      | (inr v, w') =>
          loads_comprehension self interaction items (PyDict.set param v kwargs) w'
      | (inl e, w') => (inl e, w')
      end
    else loads_comprehension self interaction items kwargs w.
Proof.
  cbn [loads_comprehension]. destruct (bool_decide (value ≠ "")); [|done].
  unfold mbind, M_bind.
  by destruct (loads_param self interaction param value w) as [[e|v] w'].
Qed.

(** The comprehension over a prefix whose non-empty entries all decode. *)
Lemma loads_comprehension_prefix self interaction pre rest kwargs w ds :
  decode_all w self interaction (filter nonempty pre) = inr ds →
  loads_comprehension self interaction (pre ++ rest) kwargs w =
  loads_comprehension self interaction rest
    (foldl (λ kw d, PyDict.set (d_param d) (d_value d) kw) kwargs ds)
    (logged (loads_calls ds) w).
Proof.
  revert kwargs w ds.
  induction pre as [|[param value] pre IH]; intros kwargs w ds.
  - intros [= <-]. simpl. by rewrite logged_nil.
  - rewrite <- app_comm_cons, loads_comprehension_cons, filter_cons.
    unfold nonempty at 1. cbn [snd].
    destruct (decide (value ≠ "")) as [Hne|Hempty].
    + rewrite bool_decide_eq_true_2 by done. cbn [decode_all].
      rewrite loads_param_run.
      destruct (mapping_items w (parsers self) !! param) as [p|]; [|done].
      unfold mbind, result_bind.
      destruct (parser_loads p interaction value) as [e|v]; [done|].
      destruct (decode_all w self interaction (filter nonempty pre))
        as [e|ds'] eqn:Hds'; [done|].
      intros [= <-]. cbn [foldl d_param d_value].
      rewrite (IH _ _ ds') by (by rewrite decode_all_logged).
      by rewrite logged_logged.
    + rewrite bool_decide_eq_false_2 by done. apply IH.
Qed.

Lemma foldl_set_fresh (ds : list Decoded) (kwargs : list (string * Value)) :
  NoDup (kwargs.*1 ++ (d_param <$> ds)) →
  foldl (λ kw d, PyDict.set (d_param d) (d_value d) kw) kwargs ds =
    kwargs ++ keyword_values ds.
Proof.
  revert kwargs. induction ds as [|d ds IH]; intros kwargs Hnd; simpl.
  - by rewrite app_nil_r.
  - rewrite set_fresh_key.
    + rewrite IH.
      * by rewrite <- app_assoc.
      * rewrite fmap_app. simpl. by rewrite <- app_assoc.
    + apply PyDictFacts.get_None_keys. unfold PyDict.keys.
      apply NoDup_app in Hnd as (_ & Hdisj & _).
      intros Hin. apply (Hdisj _ Hin). simpl. left.
Qed.

(** C7. When every non-empty entry of [params] decodes, [loads] calls
    [parser.loads] once for each non-empty entry, in order, with the parser
    bound to that field, and then calls the component with exactly the
    decoded values of those entries as keyword arguments: the empty entries
    do not appear among them. *)
Theorem loads_decodes_nonempty_entries self interaction params w ds :
  NoDup params.*1 →
  decode_all w self interaction (filter nonempty params) = inr ds →
  (λ d, (d_param d, d_raw d)) <$> ds = filter nonempty params ∧
  loads self interaction params w =
    (component_call (component self) (keyword_values ds),
     logged (loads_calls ds ++
             [ComponentCalled (component self) (keyword_values ds)]) w).
Proof.
  intros Hnd Hds. split; [by eapply decode_all_entries|].
  unfold loads. unfold mbind at 1, M_bind at 1.
  rewrite <- (app_nil_r params) at 1.
  rewrite (loads_comprehension_prefix _ _ _ _ _ _ _ Hds). simpl.
  rewrite foldl_set_fresh.
  - simpl. unfold mbind, M_bind, emit, lift. rewrite logged_logged.
    by destruct (component_call _ _).
  - simpl. replace (d_param <$> ds) with ((filter nonempty params).*1).
    + eapply sublist_NoDup; [exact Hnd|].
      apply fmap_sublist, sublist_filter.
    + rewrite <- (decode_all_entries _ _ _ _ _ Hds).
      rewrite <- list_fmap_compose. done.
Qed.

(** C8. When the parser of a non-empty entry raises, after the non-empty
    entries before it decoded, [loads] raises that error: the calls made
    are the [loads] of those earlier entries and of the failing one, so
    no later entry is decoded and the component is never called. *)
Theorem loads_first_error self interaction pre param value post p e w ds :
  decode_all w self interaction (filter nonempty pre) = inr ds →
  value ≠ "" →
  mapping_items w (parsers self) !! param = Some p →
  parser_loads p interaction value = inl e →
  let calls := loads_calls ds ++ [LoadsCalled p value] in
  loads self interaction (pre ++ (param, value) :: post) w =
    (inl e, logged calls w) ∧
  length calls = S (length (filter nonempty pre)) ∧
  (∀ c kwargs, ComponentCalled c kwargs ∉ calls).
Proof.
  intros Hds Hne Hp He calls. split; [|split].
  - unfold loads. unfold mbind at 1, M_bind at 1.
    rewrite (loads_comprehension_prefix _ _ _ _ _ _ _ Hds).
    rewrite loads_comprehension_cons, bool_decide_eq_true_2 by done.
    rewrite loads_param_run.
    change (mapping_items (logged (loads_calls ds) w) (parsers self))
      with (mapping_items w (parsers self)).
    by rewrite Hp, He, logged_logged.
  - subst calls. unfold loads_calls.
    rewrite length_app, length_fmap. simpl.
    rewrite <- (decode_all_entries _ _ _ _ _ Hds), length_fmap. lia.
  - intros c kwargs. subst calls. unfold loads_calls.
    rewrite elem_of_app, list_elem_of_fmap, list_elem_of_singleton.
    intros [(d & [=] & _)|[=]].
Qed.

End loads_properties.

(** C7 on a run: [page] is empty and is left to the component's default. *)
Lemma loads_decodes_nonempty_entries_witness :
  @loads Sample.externals SampleFactory.factory VNone
    [("user_id", "42"); ("page", ""); ("note", "hi")] SampleFactory.world =
  (inr (VComponent "Component" [("user_id", VInt 42); ("note", VStr "hi")]),
   logged [LoadsCalled (Parser 1 "IntParser" [] None) "42";
           LoadsCalled (Parser 3 "StringParser" [] None) "hi";
           ComponentCalled "Component" [("user_id", VInt 42); ("note", VStr "hi")]]
     SampleFactory.world).
Proof.
  refine (proj2 (@loads_decodes_nonempty_entries Sample.externals
                   SampleFactory.factory VNone
                   [("user_id", "42"); ("page", ""); ("note", "hi")]
                   SampleFactory.world
                   [ {| d_param := "user_id"; d_raw := "42";
                        d_parser := Parser 1 "IntParser" [] None;
                        d_value := VInt 42 |};
                     {| d_param := "note"; d_raw := "hi";
                        d_parser := Parser 3 "StringParser" [] None;
                        d_value := VStr "hi" |} ] _ _)).
  - refine (bool_decide_unpack _ _). vm_compute. exact I.
  - reflexivity.
Defined.

(** C8 on a run: [page] does not parse; [note] is never decoded. *)
Lemma loads_first_error_witness :
  @loads Sample.externals SampleFactory.factory VNone
    [("user_id", "42"); ("page", "x"); ("note", "hi")] SampleFactory.world =
  (inl (ParserError "x"),
   logged [LoadsCalled (Parser 1 "IntParser" [] None) "42";
           LoadsCalled (Parser 2 "IntParser" [] None) "x"]
     SampleFactory.world).
Proof.
  refine (proj1 (@loads_first_error Sample.externals
                   SampleFactory.factory VNone
                   [("user_id", "42")] "page" "x" [("note", "hi")]
                   (Parser 2 "IntParser" [] None) (ParserError "x")
                   SampleFactory.world
                   [ {| d_param := "user_id"; d_raw := "42";
                        d_parser := Parser 1 "IntParser" [] None;
                        d_value := VInt 42 |} ] _ _ _ _)).
  - reflexivity.
  - discriminate.
  - reflexivity.
  - reflexivity.
Defined.

(** ** The enum parser: [_get_enum_type] and [EnumParser.__init__] *)

Section enum_properties.
Context `{Builtins}.

Lemma _get_enum_type_flags ec :
  issubclass (enum_cls ec) (One BaseFlags) = Some true →
  _get_enum_type ec = inr (Some int).
Proof. unfold _get_enum_type, issubclass_or_raise. by intros ->. Qed.

Lemma _get_enum_type_members ec first rest :
  issubclass (enum_cls ec) (One BaseFlags) = Some false →
  default object (_member_type_ ec) = object →
  members ec = first :: rest →
  _get_enum_type ec =
    inr (if forallb (λ member, bool_decide (type_of member.2 = type_of first.2)) rest
         then Some (type_of first.2) else None).
Proof.
  unfold _get_enum_type, issubclass_or_raise. intros -> -> ->. simpl.
  destruct first as [name v]. simpl. by destruct (forallb _ rest).
Qed.

Lemma forallb_shared_type (first : string * Value) rest :
  forallb (λ member, bool_decide (type_of member.2 = type_of first.2)) rest = true ↔
  ∃ t, Forall (λ member : string * Value, type_of member.2 = t) (first :: rest).
Proof.
  rewrite forallb_forall. split.
  - intros Hall. exists (type_of first.2). constructor; [done|].
    apply Forall_forall. intros m Hm. apply list_elem_of_In in Hm.
    eapply bool_decide_eq_true_1, Hall. done.
  - intros [t Hall] m Hm. apply bool_decide_eq_true_2.
    apply Forall_cons in Hall as [-> Hall].
    rewrite Forall_forall in Hall. apply Hall. by apply list_elem_of_In.
Qed.

Lemma _get_enum_type_None_not_flags ec fl :
  issubclass (enum_cls ec) (One BaseFlags) = Some fl →
  _get_enum_type ec = inr None → fl = false.
Proof.
  unfold _get_enum_type, issubclass_or_raise. intros ->. by destruct fl.
Qed.

Lemma EnumParser_init_run reg ec sbv w fl ovt :
  issubclass (enum_cls ec) (One BaseFlags) = Some fl →
  _get_enum_type ec = inr ovt →
  EnumParser_init reg ec sbv w =
    if fl && bool_decide (sbv = Some false)
    then (inl (ValueError flags_by_name_msg), w)
    else
      match ovt, sbv with
      | None, (None | Some false) => built ec false str (get_parser reg str w)
      | Some vt, None =>
          match issubclass vt (One int) with
          | Some b => built ec b vt (get_parser reg vt w)
          | None => (inl (TypeError "issubclass() arg 1 must be a class"), w)
          end
      | Some vt, Some b => built ec b vt (get_parser reg vt w)
      | None, Some true => (inl (ValueError varying_types_msg), w)
      end.
Proof.
  intros Hfl Hty. unfold EnumParser_init.
  unfold mbind at 1, M_bind at 1, lift at 1. rewrite Hty.
  unfold mbind at 1, M_bind at 1, lift at 1, issubclass_or_raise at 1.
  rewrite Hfl. destruct (fl && bool_decide (sbv = Some false)); [done|].
  unfold built.
  destruct ovt as [vt|], sbv as [[]|]; simpl; try done;
    unfold mbind, M_bind, mret, M_ret, lift; simpl;
    try (by destruct (get_parser reg _ w) as [[e|vp] w']).
  unfold issubclass_or_raise. destruct (issubclass vt (One int)); [|done].
  by destruct (get_parser reg _ w) as [[e|vp] w'].
Qed.

(** C9, as amended. For an enum that is not a flag class and has no mixin
    type, [_get_enum_type] finds a value type exactly when all members
    share one; for a flag class it is [int]. With a value type [vt], the
    default [store_by_value] is what [issubclass(vt, int)] says, and an
    explicit [store_by_value] is taken as given, except that [False] for a
    flag class is refused with a [ValueError]. Without a value type, the
    parser stores by name with the parser of [str], unless the caller asked
    for [store_by_value=True], which is refused with a [ValueError] before
    any parser is looked up. *)
Theorem EnumParser_init_policy reg ec w fl :
  issubclass (enum_cls ec) (One BaseFlags) = Some fl →
  (fl = true → _get_enum_type ec = inr (Some int)) ∧
  (∀ first rest,
     fl = false → default object (_member_type_ ec) = object →
     members ec = first :: rest →
     ((∃ vt, _get_enum_type ec = inr (Some vt)) ↔
      ∃ t, Forall (λ member : string * Value, type_of member.2 = t) (members ec)) ∧
     (∀ vt, _get_enum_type ec = inr (Some vt) →
            Forall (λ member : string * Value, type_of member.2 = vt) (members ec))) ∧
  (∀ vt,
     _get_enum_type ec = inr (Some vt) →
     (∀ b, issubclass vt (One int) = Some b →
           EnumParser_init reg ec None w = built ec b vt (get_parser reg vt w)) ∧
     EnumParser_init reg ec (Some true) w = built ec true vt (get_parser reg vt w) ∧
     (fl = false →
      EnumParser_init reg ec (Some false) w =
        built ec false vt (get_parser reg vt w)) ∧
     (fl = true →
      EnumParser_init reg ec (Some false) w =
        (inl (ValueError flags_by_name_msg), w))) ∧
  (_get_enum_type ec = inr None →
     EnumParser_init reg ec None w = built ec false str (get_parser reg str w) ∧
     EnumParser_init reg ec (Some false) w =
       built ec false str (get_parser reg str w) ∧
     EnumParser_init reg ec (Some true) w =
       (inl (ValueError varying_types_msg), w)).
Proof.
  intros Hfl. split; [|split; [|split]].
  - intros ->. by apply _get_enum_type_flags.
  - intros first rest -> Hmixin Hmembers.
    rewrite (_get_enum_type_members _ _ _ Hfl Hmixin Hmembers), Hmembers.
    split.
    + rewrite <- forallb_shared_type. destruct (forallb _ rest).
      * split; [done|]. intros _. by eexists.
      * split; [by intros [vt [=]]|done].
    + intros vt. destruct (forallb _ rest) eqn:Hall; [|done].
      intros [= <-]. apply forallb_shared_type in Hall as [t Hall].
      apply Forall_cons in Hall as [<- Hall]. by constructor.
  - intros vt Hty. repeat split.
    + intros b Hb. rewrite (EnumParser_init_run _ _ _ _ _ _ Hfl Hty), Hb.
      by rewrite andb_false_r.
    + rewrite (EnumParser_init_run _ _ _ _ _ _ Hfl Hty).
      by rewrite andb_false_r.
    + intros ->. by rewrite (EnumParser_init_run _ _ _ _ _ _ Hfl Hty).
    + intros ->. by rewrite (EnumParser_init_run _ _ _ _ _ _ Hfl Hty).
  - intros Hty.
    rewrite (_get_enum_type_None_not_flags _ _ Hfl Hty) in Hfl.
    by rewrite !(EnumParser_init_run _ _ _ _ _ _ Hfl Hty).
Qed.

End enum_properties.

(** C9 fails as written for flag classes: all flag values are [int], yet an
    explicit [store_by_value=False] is refused. *)
Lemma explicit_policy_respected_counterexample :
  ¬ @explicit_policy_respected Sample.builtins.
Proof.
  intros Hclaim.
  specialize (Hclaim Sample.registry SampleEnum.Permissions int false
                Sample.world0 eq_refl).
  discriminate Hclaim.
Qed.

(** The amended C9 on sample classes: [Color] (integer values) stores by
    value by default; [Mixed] stores by name by default and refuses
    [store_by_value=True]; the flag class [Permissions] refuses
    [store_by_value=False]. *)
Lemma EnumParser_init_policy_witness :
  (@EnumParser_init Sample.builtins Sample.registry SampleEnum.Color None
     Sample.world0).1 =
    inr {| enum_class := SampleEnum.Color; store_by_value := true;
           value_type := int; value_parser := Parser 0 "IntParser" [] None |} ∧
  (@EnumParser_init Sample.builtins Sample.registry SampleEnum.Mixed None
     Sample.world0).1 =
    inr {| enum_class := SampleEnum.Mixed; store_by_value := false;
           value_type := str; value_parser := Parser 0 "StringParser" [] None |} ∧
  (@EnumParser_init Sample.builtins Sample.registry SampleEnum.Mixed (Some true)
     Sample.world0).1 = inl (ValueError varying_types_msg) ∧
  (@EnumParser_init Sample.builtins Sample.registry SampleEnum.Permissions
     (Some false) Sample.world0).1 = inl (ValueError flags_by_name_msg).
Proof.
  split; [|split; [|split]].
  - destruct (@EnumParser_init_policy Sample.builtins Sample.registry
                SampleEnum.Color Sample.world0 false eq_refl)
      as (_ & _ & Hshared & _).
    destruct (Hshared int eq_refl) as (Hdefault & _).
    by rewrite (Hdefault true eq_refl).
  - destruct (@EnumParser_init_policy Sample.builtins Sample.registry
                SampleEnum.Mixed Sample.world0 false eq_refl)
      as (_ & _ & _ & Hmixed).
    destruct (Hmixed eq_refl) as (Hdefault & _).
    by rewrite Hdefault.
  - destruct (@EnumParser_init_policy Sample.builtins Sample.registry
                SampleEnum.Mixed Sample.world0 false eq_refl)
      as (_ & _ & _ & Hmixed).
    destruct (Hmixed eq_refl) as (_ & _ & Hforced).
    by rewrite Hforced.
  - destruct (@EnumParser_init_policy Sample.builtins Sample.registry
                SampleEnum.Permissions Sample.world0 true eq_refl)
      as (_ & _ & Hshared & _).
    destruct (Hshared int eq_refl) as (_ & _ & _ & Hflags).
    by rewrite (Hflags eq_refl).
Defined.

(** * Further properties of the code *)

(** ** Registration calls composed *)

Section registration_composed.
Context `{Builtins}.
Implicit Types (reg : Registry) (parser : string) (types : list pytype).

Lemma set_same {K V} `{EqDecision K} (k : K) (v : V) (d : list (K * V)) :
  PyDict.get k d = Some v → PyDict.set k v d = d.
Proof.
  induction d as [|[k' v'] d IH]; simpl; [done|].
  destruct (decide (k = k')) as [->|Hne].
  - by intros [= ->].
  - intros Hd. by rewrite IH.
Qed.

Lemma setdefault_present {K V} `{EqDecision K} (k : K) (v : V) (d : list (K * V)) :
  is_Some (PyDict.get k d) → PyDict.setdefault k v d = d.
Proof. unfold PyDict.setdefault. by intros [v' ->]. Qed.

Lemma foldl_set_fixed {K V} `{EqDecision K} (p : V) (ks : list K) (d : list (K * V)) :
  Forall (λ k, PyDict.get k d = Some p) ks →
  foldl (λ d k, PyDict.set k p d) d ks = d.
Proof.
  induction 1 as [|k ks Hk _ IH]; simpl; [done|]. by rewrite set_same.
Qed.

Lemma foldl_setdefault_fixed {K V} `{EqDecision K} (p : V) (ks : list K)
    (d : list (K * V)) :
  Forall (λ k, is_Some (PyDict.get k d)) ks →
  foldl (λ d k, PyDict.setdefault k p d) d ks = d.
Proof.
  induction 1 as [|k ks Hk _ IH]; simpl; [done|]. by rewrite setdefault_present.
Qed.

Lemma registry_eq reg1 reg2 :
  _PARSERS reg1 = _PARSERS reg2 → _REV_PARSERS reg1 = _REV_PARSERS reg2 →
  reg1 = reg2.
Proof. destruct reg1, reg2. simpl. by intros -> ->. Qed.

Lemma forced_keys_bound parser types reg :
  Forall (λ k, PyDict.get k (_PARSERS (register_parser parser types true reg))
               = Some parser)
         (origin_or_self <$> types).
Proof.
  apply Forall_forall. intros k Hk.
  by rewrite get_forced, bool_decide_eq_true_2.
Qed.

Lemma filled_keys_bound parser types reg :
  Forall (λ k, is_Some (PyDict.get k (_PARSERS (register_parser parser types false reg))))
         (origin_or_self <$> types).
Proof.
  apply Forall_forall. intros k Hk. rewrite get_filled.
  destruct (PyDict.get k (_PARSERS reg)); [by eexists|].
  rewrite bool_decide_eq_true_2 by done. by eexists.
Qed.

Lemma fmap_origin_or_self_idemp types :
  origin_or_self <$> (origin_or_self <$> types) = origin_or_self <$> types.
Proof.
  rewrite <- list_fmap_compose. apply list_fmap_ext. intros _ t _.
  apply origin_or_self_idemp.
Qed.

(** X1. Repeating a registration call changes nothing, with or without
    [force]; and an unforced call after the forced one changes nothing
    either. *)
Theorem register_parser_idempotent parser types reg :
  (∀ force,
     register_parser parser types force
       (register_parser parser types force reg) =
     register_parser parser types force reg) ∧
  register_parser parser types false (register_parser parser types true reg) =
  register_parser parser types true reg.
Proof.
  split; [intros [|]|]; apply registry_eq.
  - unfold register_parser at 1. cbn [_PARSERS].
    apply foldl_set_fixed, forced_keys_bound.
  - unfold register_parser at 1. cbn [_REV_PARSERS].
    apply set_same. by rewrite get_rev_forced, decide_True.
  - unfold register_parser at 1. cbn [_PARSERS].
    apply foldl_setdefault_fixed, filled_keys_bound.
  - unfold register_parser at 1. cbn [_REV_PARSERS].
    apply setdefault_present. simpl.
    rewrite PyDictFacts.get_setdefault.
    destruct (PyDict.get parser (_REV_PARSERS reg)); [by eexists|].
    rewrite decide_True by done. by eexists.
  - unfold register_parser at 1. cbn [_PARSERS].
    apply foldl_setdefault_fixed.
    eapply Forall_impl; [apply forced_keys_bound|]. intros k ->. by eexists.
  - unfold register_parser at 1. cbn [_REV_PARSERS].
    apply setdefault_present. rewrite get_rev_forced, decide_True by done.
    by eexists.
Qed.

End registration_composed.

(** ** The two indexes of a reachable registry *)

Section registry_indexes.
Context `{Builtins}.
Implicit Types (reg : Registry) (parser : string) (types : list pytype).

Lemma elem_of_foldl_set {K V} `{EqDecision K} (p : V) (ks : list K)
    (d : list (K * V)) (kv : K * V) :
  kv ∈ foldl (λ d k, PyDict.set k p d) d ks → kv.2 = p ∨ kv ∈ d.
Proof.
  revert d. induction ks as [|k ks IH]; intros d; simpl; [auto|].
  intros Hin. apply IH in Hin as [?|Hin]; [auto|].
  apply PyDictFacts.elem_of_set in Hin as [->|?]; auto.
Qed.

Lemma elem_of_foldl_setdefault {K V} `{EqDecision K} (p : V) (ks : list K)
    (d : list (K * V)) (kv : K * V) :
  kv ∈ foldl (λ d k, PyDict.setdefault k p d) d ks → kv.2 = p ∨ kv ∈ d.
Proof.
  revert d. induction ks as [|k ks IH]; intros d; simpl; [auto|].
  intros Hin. apply IH in Hin as [?|Hin]; [auto|].
  apply PyDictFacts.elem_of_setdefault in Hin as [->|?]; auto.
Qed.

Lemma forward_binding_kept parser types force reg k :
  is_Some (PyDict.get k (_PARSERS reg)) →
  is_Some (PyDict.get k (_PARSERS (register_parser parser types force reg))).
Proof.
  intros [q Hq]. destruct force.
  - rewrite get_forced, Hq. by destruct (bool_decide _); eexists.
  - rewrite get_filled, Hq. by eexists.
Qed.

Lemma forward_binding_new parser types force reg k :
  k ∈ origin_or_self <$> types →
  is_Some (PyDict.get k (_PARSERS (register_parser parser types force reg))).
Proof.
  intros Hk. destruct force.
  - pose proof (forced_keys_bound parser types reg) as Hall.
    rewrite Forall_forall in Hall. rewrite (Hall _ Hk). by eexists.
  - pose proof (filled_keys_bound parser types reg) as Hall.
    rewrite Forall_forall in Hall. by apply Hall.
Qed.

Lemma reverse_entry_kept parser types force reg q :
  is_Some (PyDict.get q (_REV_PARSERS reg)) ∨ q = parser →
  is_Some (PyDict.get q (_REV_PARSERS (register_parser parser types force reg))).
Proof.
  intros Hq. destruct force.
  - rewrite get_rev_forced. destruct (decide (q = parser)); [by eexists|].
    by destruct Hq.
  - simpl. rewrite PyDictFacts.get_setdefault.
    destruct (PyDict.get q (_REV_PARSERS reg)); [by eexists|].
    destruct Hq as [[? ?] | ->]; [done|]. rewrite decide_True by done.
    by eexists.
Qed.

Lemma reverse_entry_origin parser types force reg (entry : string * list pytype) :
  entry ∈ _REV_PARSERS (register_parser parser types force reg) →
  entry = (parser, origin_or_self <$> types) ∨ entry ∈ _REV_PARSERS reg.
Proof.
  destruct force; simpl.
  - apply PyDictFacts.elem_of_set.
  - apply PyDictFacts.elem_of_setdefault.
Qed.

Lemma forward_entry_origin parser types force reg (kv : pytype * string) :
  kv ∈ _PARSERS (register_parser parser types force reg) →
  kv.2 = parser ∨ kv ∈ _PARSERS reg.
Proof.
  destruct force; simpl.
  - apply elem_of_foldl_set.
  - apply elem_of_foldl_setdefault.
Qed.

Lemma register_parser_coherent parser types force reg :
  indexes_coherent reg →
  indexes_coherent (register_parser parser types force reg).
Proof.
  intros [Hrev Hfwd]. rewrite Forall_forall in Hrev. rewrite Forall_forall in Hfwd.
  split; apply Forall_forall.
  - intros entry [->|Hold]%reverse_entry_origin; apply Forall_forall; intros k Hk.
    + by apply forward_binding_new.
    + apply forward_binding_kept.
      specialize (Hrev _ Hold). rewrite Forall_forall in Hrev. by apply Hrev.
  - intros kv [Hnew|Hold]%forward_entry_origin; apply reverse_entry_kept.
    + by right.
    + left. by apply Hfwd.
Qed.

Lemma registered_coherent calls : indexes_coherent (registered calls).
Proof.
  induction calls as [|call calls IH] using rev_ind.
  - split; constructor.
  - rewrite registered_snoc. by apply register_parser_coherent.
Qed.

(** X2. In every reachable registry the two indexes agree on what exists:
    each key listed in a reverse-index entry is bound in the forward map,
    and each parser bound in the forward map has a reverse-index entry. *)
Theorem registered_indexes_coherent calls : indexes_coherent (registered calls).
Proof. apply registered_coherent. Qed.

(** X3. In a reachable registry, the slow lookup never finds a parser
    through the [except TypeError] branch of [_issubclass]: a type that
    misses the forward map is not one of the keys of any reverse-index
    entry, so on every entry [_issubclass] answers what the builtin
    answers, and [False] where the builtin raises. *)
Theorem slow_lookup_ignores_identity calls (type_ : pytype) :
  PyDict.get type_ (_PARSERS (registered calls)) = None →
  Forall (λ entry,
            (type_ ∉ entry.2) ∧
            _issubclass type_ (Tup entry.2) =
              match issubclass type_ (Tup entry.2) with
              | Some b => b
              | None => false
              end)
         (_REV_PARSERS (registered calls)).
Proof.
  intros Hmiss. destruct (registered_coherent calls) as [Hrev _].
  eapply Forall_impl; [exact Hrev|]. intros [p keys] Hkeys. simpl in *.
  assert (Hnot : type_ ∉ keys).
  { intros Hin. rewrite Forall_forall in Hkeys.
    destruct (Hkeys _ Hin) as [q Hq]. congruence. }
  split; [done|]. unfold _issubclass.
  destruct (issubclass type_ (Tup keys)); [done|].
  apply not_true_is_false. rewrite existsb_exists.
  intros (k & Hk & Heq). apply bool_decide_eq_true in Heq as <-.
  by apply list_elem_of_In in Hk.
Qed.

End registry_indexes.

(** X3 on the sample registry: [bool] has no binding of its own. *)
Lemma slow_lookup_ignores_identity_witness :
  Forall (λ entry : string * list pytype,
            (TClass "bool" ∉ entry.2) ∧
            @_issubclass Sample.builtins (TClass "bool") (Tup entry.2) =
              match @issubclass Sample.builtins (TClass "bool") (Tup entry.2) with
              | Some b => b
              | None => false
              end)
         (_REV_PARSERS Sample.registry).
Proof.
  apply (@slow_lookup_ignores_identity Sample.builtins
           [ ("NoneParser", [TClass "NoneType"], true);
             ("IntParser", [int], true);
             ("StringParser", [str], true);
             ("UnionParser", [typing_Union], true);
             ("TupleParser", [TAlias "tuple" [TClass "typing.Any"; TClass "Ellipsis"]], true);
             ("CollectionParser", [TAlias "collections.abc.Collection" [object]], true) ]
           (TClass "bool")).
  reflexivity.
Defined.

(** ** Two parsers registered for the same type *)

Section displaced_parser.
Context `{Builtins}.

(** X4. When a new parser [first] and then a new parser [second] are
    registered with [force] for the same bare type, as [channel.py] and
    [emoji.py] do with their cache-only and fetching parsers: the type itself
    resolves to [second], both parsers keep listing it in [default_types],
    and a type without binding of its own that is compatible with it, with
    no compatible entry before, still resolves to [first]. *)
Theorem displaced_parser_serves_subclasses reg0 first second key other :
  first ≠ second →
  PyDict.get second (_REV_PARSERS reg0) = None →
  PyDict.get (TClass other) (_PARSERS reg0) = None →
  Forall (λ entry, entry.1 ≠ first →
                   _issubclass (TClass other) (Tup entry.2) = false)
         (_REV_PARSERS reg0) →
  other ≠ key →
  _issubclass (TClass other) (Tup [TClass key]) = true →
  let reg := __init_subclass__ second [TClass key]
               (__init_subclass__ first [TClass key] reg0) in
  _get_parser_type reg (TClass key) = inr second ∧
  default_types reg first = inr [TClass key] ∧
  default_types reg second = inr [TClass key] ∧
  _get_parser_type reg (TClass other) = inr first.
Proof.
  intros Hne Hnew Hfwd Hrev Hok Hsub reg. subst reg.
  unfold __init_subclass__. repeat split.
  - apply get_parser_type_exact.
    rewrite get_forced, bool_decide_eq_true_2; [done|]. simpl. left.
  - unfold default_types. rewrite get_rev_forced, decide_False by done.
    by rewrite get_rev_forced, decide_True.
  - unfold default_types. by rewrite get_rev_forced, decide_True.
  - unfold _get_parser_type. rewrite !get_forced.
    rewrite !bool_decide_eq_false_2
      by (simpl; intros [[=]|[]%elem_of_nil]%elem_of_cons; done).
    rewrite Hfwd. unfold register_parser at 1. simpl.
    rewrite set_fresh_key.
    + erewrite scan_rev_app; [done|]. by apply scan_rev_set.
    + rewrite PyDictFacts.get_set_ne by done. exact Hnew.
Qed.

(** X5. Registering again without [force] a parser that has a
    reverse-index entry leaves [default_types] as it was, even for the keys
    the call newly binds to the parser in the forward map. *)
Theorem unforced_registration_keeps_default_types reg parser types old t :
  PyDict.get parser (_REV_PARSERS reg) = Some old →
  t ∈ types →
  PyDict.get (origin_or_self t) (_PARSERS reg) = None →
  let reg' := register_parser parser types false reg in
  default_types reg' parser = inr old ∧
  _get_parser_type reg' (origin_or_self t) = inr parser.
Proof.
  intros Hold Ht Hfree reg'. subst reg'. split.
  - unfold default_types. simpl. by rewrite PyDictFacts.get_setdefault, Hold.
  - apply get_parser_type_exact. rewrite get_filled, Hfree.
    rewrite bool_decide_eq_true_2; [done|]. by apply list_elem_of_fmap_2.
Qed.

End displaced_parser.

(** X4 on the sample hierarchy: [Other] is a subclass of [Base]. *)
Lemma displaced_parser_serves_subclasses_witness :
  let reg := __init_subclass__ "BaseParser" [TClass "Base"]
               (__init_subclass__ "GetBaseParser" [TClass "Base"] Sample.registry) in
  @_get_parser_type Sample.builtins reg (TClass "Base") = inr "BaseParser" ∧
  default_types reg "GetBaseParser" = inr [TClass "Base"] ∧
  default_types reg "BaseParser" = inr [TClass "Base"] ∧
  @_get_parser_type Sample.builtins reg (TClass "Other") = inr "GetBaseParser".
Proof.
  apply (@displaced_parser_serves_subclasses Sample.builtins Sample.registry
           "GetBaseParser" "BaseParser" "Base" "Other").
  - discriminate.
  - reflexivity.
  - reflexivity.
  - repeat constructor.
  - discriminate.
  - reflexivity.
Defined.

(** X5 on the sample registry: [IntParser] is registered again, unforced,
    for [bool]. *)
Lemma unforced_registration_keeps_default_types_witness :
  let reg' := register_parser "IntParser" [TClass "bool"] false Sample.registry in
  default_types reg' "IntParser" = inr [int] ∧
  @_get_parser_type Sample.builtins reg' (TClass "bool") = inr "IntParser".
Proof.
  apply (@unforced_registration_keeps_default_types Sample.builtins
           Sample.registry "IntParser" [TClass "bool"] [int] (TClass "bool")).
  - reflexivity.
  - left.
  - reflexivity.
Defined.

(** ** The resolver: failures and composites *)

Section resolver_composites.
Context `{Builtins}.

Lemma mbind_run {A B} (m : M A) (f : A → M B) w :
  (m ≫= f) w =
    match m w with
    | (inr x, w') => f x w'
    | (inl e, w') => (inl e, w')
    end.
Proof. done. Qed.

(** X6. A generic alias fails without any of its type arguments being
    resolved and without any object being created: with the error of the
    origin's lookup when the origin has no parser; and, when the origin has
    one and is not [Union], with the [TypeError] of [issubclass] where it
    rejects the origin (an origin that is no class), or else, for an origin
    that is neither a tuple nor a collection, with a [TypeError] that names
    the alias. *)
Theorem get_parser_alias_failures reg origin type_args w :
  (∀ e,
     _get_parser_type reg (TClass origin) = inl e →
     get_parser reg (TAlias origin type_args) w = (inl e, w)) ∧
  (∀ parser_type,
     _get_parser_type reg (TClass origin) = inr parser_type →
     TClass origin ≠ typing_Union →
     (issubclass (TClass origin) (One typing_Tuple) = None →
      ∃ msg, get_parser reg (TAlias origin type_args) w = (inl (TypeError msg), w)) ∧
     (issubclass (TClass origin) (One typing_Tuple) = Some false →
      (issubclass (TClass origin) (One typing_Collection) = None →
       ∃ msg, get_parser reg (TAlias origin type_args) w =
                (inl (TypeError msg), w)) ∧
      (issubclass (TClass origin) (One typing_Collection) = Some false →
       get_parser reg (TAlias origin type_args) w =
         (inl (TypeError ("Coult not create a parser for type "
                          +:+ repr (__name__ (TAlias origin type_args))
                          +:+ ".")), w)))).
Proof.
  split.
  - intros e He. rewrite get_parser_alias, mbind_run. unfold lift. by rewrite He.
  - intros pt Hpt Hunion.
    assert (Hrun : get_parser reg (TAlias origin type_args) w =
              (is_tuple ← lift (issubclass_or_raise (TClass origin) (One typing_Tuple));
               if is_tuple : bool then
                 inner_parsers ← get_parsers reg type_args;
                 construct pt inner_parsers None
               else
                 is_collection ←
                   lift (issubclass_or_raise (TClass origin) (One typing_Collection));
                 if is_collection : bool then
                   inner_parser ←
                     match type_args with
                     | [] => get_parser_plain reg str
                     | inner_type :: _ => get_parser reg inner_type
                     end;
                   construct pt [inner_parser] (Some (TClass origin))
                 else
                   raise (TypeError ("Coult not create a parser for type "
                                     +:+ repr (__name__ (TAlias origin type_args))
                                     +:+ "."))) w).
    { rewrite get_parser_alias, mbind_run. unfold lift at 1. rewrite Hpt.
      by rewrite decide_False. }
    rewrite Hrun. unfold mbind, M_bind, lift, issubclass_or_raise.
    destruct (issubclass (TClass origin) (One typing_Tuple)) as [[]|].
    + split; [done|]. by intros [=].
    + split; [done|]. intros _.
      destruct (issubclass (TClass origin) (One typing_Collection)) as [[]|].
      * split; [done|]. by intros [=].
      * split; done.
      * split; [|done]. intros _. by eexists.
    + split; [|done]. intros _. by eexists.
Qed.

Lemma get_parsers_cons reg arg type_args w :
  get_parsers reg (arg :: type_args) w =
    match get_parser reg arg w with
    | (inr p, w1) =>
        match get_parsers reg type_args w1 with
        | (inr ps, w2) => (inr (p :: ps), w2)
        | (inl e, w2) => (inl e, w2)
        end
    | (inl e, w1) => (inl e, w1)
    end.
Proof.
  change (get_parsers reg (arg :: type_args))
    with (p ← get_parser reg arg; ps ← get_parsers reg type_args; mret (p :: ps)).
  rewrite mbind_run. destruct (get_parser reg arg w) as [[e|p] w1]; [done|].
  rewrite mbind_run. by destruct (get_parsers reg type_args w1) as [[e|ps] w2].
Qed.

Lemma get_parsers_resolved reg type_args ps w w' :
  get_parsers reg type_args w = (inr ps, w') →
  resolved_in_turn reg type_args ps w w'.
Proof.
  revert ps w. induction type_args as [|arg type_args IH]; intros ps w.
  - intros [= <- <-]. constructor.
  - rewrite get_parsers_cons.
    destruct (get_parser reg arg w) as [[e|p] w1] eqn:Hp; [done|].
    destruct (get_parsers reg type_args w1) as [[e|qs] w2] eqn:Hqs; [done|].
    intros [= <- <-]. econstructor; [exact Hp|]. by apply IH.
Qed.

Lemma get_parser_positional reg origin type_args parser_type w :
  _get_parser_type reg (TClass origin) = inr parser_type →
  TClass origin = typing_Union ∨
  (TClass origin ≠ typing_Union ∧
   issubclass (TClass origin) (One typing_Tuple) = Some true) →
  get_parser reg (TAlias origin type_args) w =
    match get_parsers reg type_args w with
    | (inr inner_parsers, w') =>
        (inr (Parser (next_oid w') parser_type inner_parsers None), bump w')
    | (inl e, w') => (inl e, w')
    end.
Proof.
  intros Hpt Hkind. rewrite get_parser_alias, mbind_run.
  unfold lift at 1. rewrite Hpt.
  destruct Hkind as [Hunion|[Hunion Htuple]].
  - rewrite decide_True by done. rewrite mbind_run.
    by destruct (get_parsers reg type_args w) as [[e|ps] w'].
  - rewrite decide_False by done.
    rewrite mbind_run. unfold lift at 1, issubclass_or_raise at 1. rewrite Htuple.
    rewrite mbind_run.
    by destruct (get_parsers reg type_args w) as [[e|ps] w'].
Qed.

(** X7. For a [Union] and for a tuple type whose origin has the parser
    class [parser_type], a successful [get_parser] returns a new instance
    of [parser_type] that holds exactly one inner parser per type argument,
    in the order of the arguments, each the result of [get_parser] on that
    argument, and no [collection_type]. *)
Theorem get_parser_union_tuple reg origin type_args parser_type w p w' :
  _get_parser_type reg (TClass origin) = inr parser_type →
  TClass origin = typing_Union ∨
  (TClass origin ≠ typing_Union ∧
   issubclass (TClass origin) (One typing_Tuple) = Some true) →
  get_parser reg (TAlias origin type_args) w = (inr p, w') →
  parser_cls p = parser_type ∧
  parser_collection_type p = None ∧
  length (parser_args p) = length type_args ∧
  ∃ w1, resolved_in_turn reg type_args (parser_args p) w w1 ∧
        parser_oid p = next_oid w1 ∧ w' = bump w1.
Proof.
  intros Hpt Hkind. rewrite (get_parser_positional _ _ _ _ _ Hpt Hkind).
  destruct (get_parsers reg type_args w) as [[e|ps] w1] eqn:Hps; [done|].
  intros [= <- <-]. simpl. apply get_parsers_resolved in Hps.
  repeat split.
  - clear Hpt Hkind. induction Hps; simpl; [done|]. by f_equal.
  - by exists w1.
Qed.

End resolver_composites.

(** X6 on the sample registry: [Type[int]] has no parser; once a parser is
    registered for [type], it is a generic the resolver has no shape for;
    and [typing.Literal], with a parser registered for it, is no class. *)
Lemma get_parser_alias_failures_witness :
  @get_parser Sample.builtins Sample.registry
    (TAlias "type" [int]) Sample.world0 =
    (inl (TypeError "No parser available for type 'type'."), Sample.world0) ∧
  @get_parser Sample.builtins
    (register_parser "TypeParser" [TClass "type"] true Sample.registry)
    (TAlias "type" [int]) Sample.world0 =
    (inl (TypeError "Coult not create a parser for type 'Type'."), Sample.world0) ∧
  (∃ msg,
     @get_parser Sample.builtins
       (register_parser "LiteralParser" [TClass "typing.Literal"] true
          Sample.registry)
       (TAlias "typing.Literal" [str]) Sample.world0 =
       (inl (TypeError msg), Sample.world0)).
Proof.
  split; [|split].
  - apply (@get_parser_alias_failures Sample.builtins). reflexivity.
  - destruct (proj2 (@get_parser_alias_failures Sample.builtins
                       (register_parser "TypeParser" [TClass "type"] true
                          Sample.registry)
                       "type" [int] Sample.world0) "TypeParser" eq_refl)
      as (_ & Hclass); [discriminate|].
    destruct (Hclass eq_refl) as (_ & Hshape). exact (Hshape eq_refl).
  - destruct (proj2 (@get_parser_alias_failures Sample.builtins
                       (register_parser "LiteralParser" [TClass "typing.Literal"]
                          true Sample.registry)
                       "typing.Literal" [str] Sample.world0) "LiteralParser"
                eq_refl)
      as (Hraises & _); [discriminate|].
    exact (Hraises eq_refl).
Defined.

(** X7 on the sample registry: [Optional[int]], that is [Union[int, None]]. *)
Lemma get_parser_union_tuple_witness :
  ∃ p w',
    @get_parser Sample.builtins Sample.registry
      (TAlias "typing.Union" [int; TClass "NoneType"]) Sample.world0 = (inr p, w') ∧
    parser_cls p = "UnionParser" ∧
    parser_args p = [Parser 0 "IntParser" [] None; Parser 1 "NoneParser" [] None].
Proof.
  eexists _, _. split; [reflexivity|].
  destruct (@get_parser_union_tuple Sample.builtins Sample.registry
              "typing.Union" [int; TClass "NoneType"] "UnionParser"
              Sample.world0 _ _ eq_refl (or_introl eq_refl) eq_refl)
    as (Hcls & _).
  split; [exact Hcls|reflexivity].
Defined.

(** ** The objects a resolution creates *)

Section resolver_objects.
Context `{Builtins}.

Lemma seq_snoc_range (a b : nat) :
  (a ≤ b)%nat → seq a (b - a) ++ [b] = seq a (S b - a).
Proof.
  intros Hle. replace (S b - a)%nat with ((b - a) + 1)%nat by lia.
  rewrite seq_app. simpl. do 2 f_equal. lia.
Qed.

Lemma seq_join_range (a b c : nat) :
  (a ≤ b)%nat → (b ≤ c)%nat → seq a (b - a) ++ seq b (c - b) = seq a (c - a).
Proof.
  intros Hab Hbc. replace (c - a)%nat with ((b - a) + (c - b))%nat by lia.
  rewrite seq_app. do 2 f_equal. lia.
Qed.

Lemma creates_plain reg t : creates_its_result (get_parser_plain reg t).
Proof.
  intros w p w'. rewrite get_parser_plain_run.
  destruct (_get_parser_type reg t); [done|]. intros [= <- <-]. simpl.
  replace (S (next_oid w) - next_oid w)%nat with 1%nat by lia. split; [done|lia].
Qed.

Lemma create_get_parsers reg type_args :
  Forall (λ t, creates_its_result (get_parser reg t)) type_args →
  create_their_results (get_parsers reg type_args).
Proof.
  induction 1 as [|t ts Ht _ IH]; intros w ps w'.
  - intros [= <- <-]. simpl. replace (next_oid w - next_oid w)%nat with 0%nat by lia.
    done.
  - rewrite get_parsers_cons.
    destruct (get_parser reg t w) as [[e|p] w1] eqn:Hp; [done|].
    destruct (get_parsers reg ts w1) as [[e|qs] w2] eqn:Hqs; [done|].
    intros [= <- <-]. simpl.
    destruct (Ht _ _ _ Hp) as (-> & Hlt). destruct (IH _ _ _ Hqs) as (-> & Hle).
    split; [apply seq_join_range|]; lia.
Qed.

Lemma creates_constructed (m : M (list parser)) cls ct :
  create_their_results m →
  creates_its_result (inner_parsers ← m; construct cls inner_parsers ct).
Proof.
  intros Hm w p w'. rewrite mbind_run.
  destruct (m w) as [[e|ps] w1] eqn:Hps; [done|].
  intros [= <- <-]. simpl. destruct (Hm _ _ _ Hps) as (-> & Hle).
  split; [apply seq_snoc_range|]; lia.
Qed.

Lemma creates_wrapped (m : M parser) cls ct :
  creates_its_result m →
  creates_its_result (inner_parser ← m; construct cls [inner_parser] ct).
Proof.
  intros Hm w p w'. rewrite mbind_run.
  destruct (m w) as [[e|q] w1] eqn:Hq; [done|].
  intros [= <- <-]. simpl. rewrite app_nil_r.
  destruct (Hm _ _ _ Hq) as (-> & Hlt).
  split; [apply seq_snoc_range|]; lia.
Qed.

Lemma creates_after_lift {A} (r : result A) (f : A → M parser) :
  (∀ x, creates_its_result (f x)) → creates_its_result (lift r ≫= f).
Proof.
  intros Hf w p w'. rewrite mbind_run. unfold lift.
  destruct r as [e|x]; [done|]. apply Hf.
Qed.

Lemma creates_get_parser reg t : creates_its_result (get_parser reg t).
Proof.
  induction t as [name|origin args IH] using pytype_nested_ind.
  - apply creates_plain.
  - rewrite get_parser_alias.
    pose proof (create_get_parsers reg args IH) as Hargs.
    apply creates_after_lift. intros pt. destruct (decide _).
    { by apply creates_constructed. }
    apply creates_after_lift. intros [].
    { by apply creates_constructed. }
    apply creates_after_lift. intros [].
    + apply creates_wrapped. destruct IH; [apply creates_plain|done].
    + by intros w p w'.
Qed.

(** X8. The parser that [get_parser] returns is made of new objects only,
    all distinct: listed inner parsers first, the identities of its objects
    are exactly the identities handed out during the call, in order. No
    inner parser is shared between two places of a composite, and none
    existed before the call. *)
Theorem get_parser_creates_its_result reg t w p w' :
  get_parser reg t w = (inr p, w') →
  postorder p = seq (next_oid w) (next_oid w' - next_oid w) ∧
  NoDup (postorder p) ∧
  Forall (λ oid, (next_oid w ≤ oid < next_oid w')%nat) (postorder p).
Proof.
  intros Hrun. destruct (creates_get_parser reg t _ _ _ Hrun) as (Hpost & Hlt).
  rewrite Hpost. split; [done|]. split; [apply NoDup_seq|].
  apply Forall_forall. intros oid [? ?]%elem_of_seq. lia.
Qed.

End resolver_objects.

(** X8 on the sample registry: [Tuple[int, int]] gets two [IntParser]s. *)
Lemma get_parser_creates_its_result_witness :
  ∃ p w',
    @get_parser Sample.builtins Sample.registry
      (TAlias "tuple" [int; int]) Sample.world0 = (inr p, w') ∧
    postorder p = [0; 1; 2].
Proof.
  eexists _, _. split; [reflexivity|].
  apply (@get_parser_creates_its_result Sample.builtins Sample.registry
           (TAlias "tuple" [int; int]) Sample.world0 _ _ eq_refl).
Defined.

(** ** The builder, continued *)

Section builder_composed.
Context `{Builtins}.

Lemma lookup_set_item_ne ref k v w ref' :
  ref' ≠ ref → dicts (set_item ref k v w) !! ref' = dicts w !! ref'.
Proof. intros Hne. simpl. by rewrite lookup_alter_ne. Qed.

(** X9. A successful [add_field] writes one entry of one dictionary: the
    other field names of the builder keep their parsers, the dictionaries
    of other builders and factories are untouched, and no parser or
    component is called. *)
Theorem add_field_writes_one_entry reg b f w p w' :
  is_Some (dicts w !! builder_parsers b) →
  add_field reg b f w = (inr p, w') →
  deref w' (builder_parsers b) !! attr_name f = Some p ∧
  (∀ name, name ≠ attr_name f →
     deref w' (builder_parsers b) !! name = deref w (builder_parsers b) !! name) ∧
  (∀ ref, ref ≠ builder_parsers b → dicts w' !! ref = dicts w !! ref) ∧
  trace w' = trace w.
Proof.
  intros Hb Hrun.
  destruct (add_field_records _ _ _ _ _ _ Hb Hrun) as (Hrec & _).
  split; [by rewrite Hrec, lookup_insert_eq|].
  split; [intros name Hne; by rewrite Hrec, lookup_insert_ne|].
  destruct (usable_parser f) as [q|] eqn:Hq.
  - rewrite (add_field_explicit _ _ _ _ _ Hq) in Hrun. injection Hrun as <- <-.
    split; [|done]. intros ref Hne. by apply lookup_set_item_ne.
  - rewrite (add_field_resolved _ _ _ _ Hq) in Hrun.
    destruct (get_parser _ _ w) as [[e|resolved] w1] eqn:Hres; [done|].
    destruct (allocates_only_get_parser _ _ _ _ _ Hres) as (_ & Hd & Ht).
    injection Hrun as <- <-. split; [|done].
    intros ref Hne. rewrite lookup_set_item_ne by done. simpl. by rewrite Hd.
Qed.

(** X10. A field that carries a truthy explicit parser is recorded
    without a look at the registry, so [add_field] cannot fail on it; for
    any other field, an error that [get_parser] raises for the field's type
    ([str] when it has none) is raised by [add_field], and then nothing has
    been recorded: every dictionary is as it was. *)
Theorem add_field_failure_records_nothing reg b f w :
  (∀ p, attr_parser f = Some p → truth p = true →
        ∀ reg', add_field reg' b f w =
                  (inr p, set_item (builder_parsers b) (attr_name f) p w)) ∧
  (∀ e w',
     usable_parser f = None →
     get_parser reg (default str (attr_type f)) w = (inl e, w') →
     add_field reg b f w = (inl e, w') ∧
     dicts w' = dicts w ∧ trace w' = trace w).
Proof.
  split.
  - intros p Hp Ht reg'. apply add_field_explicit.
    unfold usable_parser, fields_get_parser. by rewrite Hp, Ht.
  - intros e w' Hq Hres. rewrite (add_field_resolved _ _ _ _ Hq), Hres.
    destruct (allocates_only_get_parser _ _ _ _ _ Hres) as (_ & Hd & Ht).
    done.
Qed.

Lemma from_component_loop_add_fields reg b fields w :
  from_component_loop reg (builder_parsers b) fields w = add_fields reg b fields w.
Proof.
  revert w. induction fields as [|field fields IH]; intros w; [done|].
  cbn [from_component_loop add_fields]. unfold add_field.
  set (chosen := match fields_get_parser field with
                 | Some parser =>
                     if truth parser then mret parser else build_parser reg field
                 | None => build_parser reg field
                 end).
  unfold mbind, M_bind, mret, M_ret, dict_setitem.
  destruct (chosen w) as [[e|parser] w1]; [done|]. apply IH.
Qed.

(** X11. [from_component] and the builder bind the same parsers:
    [from_component] on the fields of a component runs as a new builder
    that is given the fields one by one and then built, and the two
    factories differ only in that the builder's is wrapped in a
    [MappingProxyType]. *)
Theorem from_component_as_builder reg cls fields w :
  from_component reg cls fields w =
    match (b ← new_builder cls; add_fields reg b fields;; mret (build b)) w with
    | (inr factory, w') =>
        (inr {| parsers := DictObject (mapping_target (parsers factory));
                component := component factory |}, w')
    | (inl e, w') => (inl e, w')
    end.
Proof.
  unfold from_component, new_builder, mbind, M_bind, mret, M_ret, new_dict.
  rewrite (from_component_loop_add_fields reg
             {| builder_parsers := next_oid w; builder_component := cls |}).
  by destruct (add_fields _ _ _ _) as [[e|[]] w1].
Qed.

End builder_composed.

(** X9 on the sample builder: [page] is added after [user_id]. *)
Lemma add_field_writes_one_entry_witness :
  let w1 := (@add_field Sample.builtins Sample.registry SampleBuilder.builder
               SampleBuilder.user_id SampleBuilder.world1).2 in
  let w2 := (@add_field Sample.builtins Sample.registry SampleBuilder.builder
               SampleBuilder.page w1).2 in
  deref w2 0 !! "page" = Some (Parser 4 "IntParser" [] None) ∧
  deref w2 0 !! "user_id" = deref w1 0 !! "user_id".
Proof.
  intros w1 w2.
  destruct (@add_field_writes_one_entry Sample.builtins Sample.registry
              SampleBuilder.builder SampleBuilder.page w1
              (Parser 4 "IntParser" [] None) w2)
    as (Hnew & Hothers & _).
  - by eexists.
  - reflexivity.
  - split; [exact Hnew|]. apply Hothers. discriminate.
Defined.

(** X10 on the sample builder: no parser is registered for [Base]. *)
Lemma add_field_failure_records_nothing_witness :
  let field := {| attr_name := "owner"; attr_type := Some (TClass "Base");
                  attr_parser := None |} in
  ∃ w',
    @add_field Sample.builtins Sample.registry SampleBuilder.builder field
      SampleBuilder.world1 =
      (inl (TypeError "No parser available for type 'Base'."), w') ∧
    dicts w' = dicts SampleBuilder.world1.
Proof.
  intros field. eexists.
  destruct (proj2 (@add_field_failure_records_nothing Sample.builtins
                     Sample.registry SampleBuilder.builder field
                     SampleBuilder.world1)
              (TypeError "No parser available for type 'Base'.")
              SampleBuilder.world1 eq_refl eq_refl) as (Hrun & Hdicts & _).
  split; [exact Hrun|exact Hdicts].
Defined.

(** ** The factory, continued: [loads] *)

Section loads_composed.
Context `{Externals}.
Implicit Types (self : ComponentFactory) (interaction : Value).

Lemma loads_comprehension_filter self interaction params kwargs w :
  loads_comprehension self interaction params kwargs w =
  loads_comprehension self interaction (filter nonempty params) kwargs w.
Proof.
  revert kwargs w.
  induction params as [|[param value] params IH]; intros kwargs w; [done|].
  rewrite loads_comprehension_cons, filter_cons. unfold nonempty at 1. cbn [snd].
  destruct (decide (value ≠ "")) as [Hne|Hempty].
  - rewrite bool_decide_eq_true_2 by done.
    rewrite loads_comprehension_cons, bool_decide_eq_true_2 by done.
    destruct (loads_param self interaction param value w) as [[e|v] w1]; [done|].
    apply IH.
  - rewrite bool_decide_eq_false_2 by done. apply IH.
Qed.

(** X12. Entries of [params] with an empty value play no part in [loads]:
    the result, the calls made and the world left are those of [loads] on
    the non-empty entries alone. In particular an empty value is never
    looked up, whatever its field name. *)
Theorem loads_ignores_empty_entries self interaction params w :
  loads self interaction params w =
  loads self interaction (filter nonempty params) w.
Proof.
  unfold loads. rewrite !mbind_run. by rewrite loads_comprehension_filter.
Qed.

(** X13. A non-empty entry whose field has no parser makes [loads] raise
    [KeyError] for that field: the entries before it were decoded, no
    [loads] is called for the entry or for those after it, and the
    component is not called. *)
Theorem loads_unknown_field self interaction pre param value post w ds :
  decode_all w self interaction (filter nonempty pre) = inr ds →
  value ≠ "" →
  mapping_items w (parsers self) !! param = None →
  loads self interaction (pre ++ (param, value) :: post) w =
    (inl (KeyError param), logged (loads_calls ds) w).
Proof.
  intros Hds Hne Hmiss. unfold loads. rewrite mbind_run.
  rewrite (loads_comprehension_prefix _ _ _ _ _ _ _ Hds).
  rewrite loads_comprehension_cons, bool_decide_eq_true_2 by done.
  rewrite loads_param_run.
  change (mapping_items (logged (loads_calls ds) w) (parsers self))
    with (mapping_items w (parsers self)).
  by rewrite Hmiss.
Qed.

Lemma dumps_param_run self param value w :
  dumps_param self param value w =
    match mapping_items w (parsers self) !! param with
    | None => (inl (KeyError param), w)
    | Some p => (parser_dumps p value, logged [DumpsCalled p value] w)
    end.
Proof.
  unfold dumps_param, mbind, M_bind, mapping_getitem.
  destruct (mapping_items w (parsers self) !! param) as [p|]; [|done].
  simpl. unfold lift. by destruct (parser_dumps p value).
Qed.

(** X15. A value that the parser of a field encodes to a string which the
    same parser decodes back survives [dumps_param] followed by
    [loads_param] on that field, with one call of each on the parser. *)
Theorem dumps_param_loads_param self interaction param p value s w :
  mapping_items w (parsers self) !! param = Some p →
  parser_dumps p value = inr s →
  parser_loads p interaction s = inr value →
  (s' ← dumps_param self param value; loads_param self interaction param s') w =
    (inr value, logged [DumpsCalled p value; LoadsCalled p s] w).
Proof.
  intros Hp Hd Hl. rewrite mbind_run, dumps_param_run, Hp, Hd.
  rewrite loads_param_run.
  change (mapping_items (logged [DumpsCalled p value] w) (parsers self))
    with (mapping_items w (parsers self)).
  by rewrite Hp, Hl, logged_logged.
Qed.

End loads_composed.

(** ** The factory, continued: [dumps] *)

Section dumps_properties.
Context `{Externals} `{ComponentAccess}.
Implicit Types (self : ComponentFactory) (interaction component : Value).

Lemma dump_all_logged es w self component fields :
  dump_all (logged es w) self component fields =
  dump_all w self component fields.
Proof.
  induction fields as [|field fields IH]; [done|].
  cbn [dump_all]. by rewrite IH.
Qed.

Lemma dumps_comprehension_cons self component field fields kwargs w :
  dumps_comprehension self component (field :: fields) kwargs w =
    match getattr component (attr_name field) with
    | inl e => (inl e, w)
    | inr value =>
        match dumps_param self (attr_name field) value w with
        | (inr s, w') =>
            dumps_comprehension self component fields
              (PyDict.set (attr_name field) s kwargs) w'
        | (inl e, w') => (inl e, w')
        end
    end.
Proof.
  cbn [dumps_comprehension]. rewrite mbind_run. unfold lift.
  destruct (getattr component (attr_name field)) as [e|value]; [done|].
  rewrite mbind_run.
  by destruct (dumps_param self (attr_name field) value w) as [[e|s] w'].
Qed.

(** The comprehension over a prefix of fields that all encode. *)
Lemma dumps_comprehension_prefix self component pre rest kwargs w ds :
  dump_all w self component pre = inr ds →
  dumps_comprehension self component (pre ++ rest) kwargs w =
  dumps_comprehension self component rest
    (foldl (λ kw d, PyDict.set (d_param d) (d_raw d) kw) kwargs ds)
    (logged (dumps_calls ds) w).
Proof.
  revert kwargs w ds. induction pre as [|field pre IH]; intros kwargs w ds.
  - intros [= <-]. simpl. by rewrite logged_nil.
  - rewrite <- app_comm_cons, dumps_comprehension_cons. cbn [dump_all].
    unfold mbind at 1, result_bind at 1.
    destruct (getattr component (attr_name field)) as [e|value]; [done|].
    rewrite dumps_param_run.
    destruct (mapping_items w (parsers self) !! attr_name field) as [p|]; [|done].
    unfold mbind, result_bind.
    destruct (parser_dumps p value) as [e|s]; [done|].
    destruct (dump_all w self component pre) as [e|ds'] eqn:Hds'; [done|].
    intros [= <-]. cbn [foldl d_param d_raw].
    rewrite (IH _ _ ds') by (by rewrite dump_all_logged).
    by rewrite logged_logged.
Qed.

Lemma dump_all_names w self component fields ds :
  dump_all w self component fields = inr ds →
  d_param <$> ds = attr_name <$> fields.
Proof.
  revert ds. induction fields as [|field fields IH]; intros ds; cbn [dump_all].
  - by intros [= <-].
  - unfold mbind at 1, result_bind at 1.
    destruct (getattr component (attr_name field)) as [e|value]; [done|].
    destruct (mapping_items w (parsers self) !! attr_name field) as [p|]; [|done].
    unfold mbind, result_bind.
    destruct (parser_dumps p value) as [e|s]; [done|].
    destruct (dump_all w self component fields) as [e|ds']; [done|].
    intros [= <-]. rewrite !fmap_cons. simpl. f_equal. by apply IH.
Qed.

Lemma foldl_set_fresh_by {V} (f : Decoded → V) (ds : list Decoded)
    (kwargs : list (string * V)) :
  NoDup (kwargs.*1 ++ (d_param <$> ds)) →
  foldl (λ kw d, PyDict.set (d_param d) (f d) kw) kwargs ds =
    kwargs ++ ((λ d, (d_param d, f d)) <$> ds).
Proof.
  revert kwargs. induction ds as [|d ds IH]; intros kwargs Hnd; simpl.
  - by rewrite app_nil_r.
  - rewrite set_fresh_key.
    + rewrite IH.
      * by rewrite <- app_assoc.
      * rewrite fmap_app. simpl. by rewrite <- app_assoc.
    + apply PyDictFacts.get_None_keys. unfold PyDict.keys.
      apply NoDup_app in Hnd as (_ & Hdisj & _).
      intros Hin. apply (Hdisj _ Hin). simpl. left.
Qed.

(** X16. When every custom id field of the component's class can be read
    and encoded, [dumps] calls [parser.dumps] once per field, in declaration
    order, with the attribute of that name and the parser bound to it, and
    hands [format_map] one string per field, those with an empty encoding
    included: unlike [loads], nothing is left out. *)
Theorem dumps_encodes_every_field self component w ds :
  NoDup (attr_name <$> get_fields (type_of component)) →
  dump_all w self component (get_fields (type_of component)) = inr ds →
  d_param <$> ds = attr_name <$> get_fields (type_of component) ∧
  dumps self component w =
    (format_map (type_of component) (encoded_values ds),
     logged (dumps_calls ds) w).
Proof.
  intros Hnd Hds. pose proof (dump_all_names _ _ _ _ _ Hds) as Hnames.
  split; [done|].
  unfold dumps. rewrite mbind_run.
  rewrite <- (app_nil_r (get_fields (type_of component))) at 1.
  rewrite (dumps_comprehension_prefix _ _ _ _ _ _ _ Hds). simpl.
  rewrite foldl_set_fresh_by by (simpl; by rewrite Hnames).
  simpl. unfold lift, encoded_values.
  by destruct (format_map _ _).
Qed.

(** X17. When reading or encoding a field fails, after the fields before it
    were encoded, [dumps] raises that error: an attribute that cannot be
    read, a field without parser ([KeyError]) or the error of the parser's
    [dumps]. No later field is encoded and no identifier is formatted. *)
Theorem dumps_first_error self component pre field post w ds :
  get_fields (type_of component) = pre ++ field :: post →
  dump_all w self component pre = inr ds →
  (∀ e,
     getattr component (attr_name field) = inl e →
     dumps self component w = (inl e, logged (dumps_calls ds) w)) ∧
  (∀ value,
     getattr component (attr_name field) = inr value →
     mapping_items w (parsers self) !! attr_name field = None →
     dumps self component w =
       (inl (KeyError (attr_name field)), logged (dumps_calls ds) w)) ∧
  (∀ value p e,
     getattr component (attr_name field) = inr value →
     mapping_items w (parsers self) !! attr_name field = Some p →
     parser_dumps p value = inl e →
     dumps self component w =
       (inl e, logged (dumps_calls ds ++ [DumpsCalled p value]) w)).
Proof.
  intros Hfields Hds.
  assert (Hrun : dumps self component w =
    match dumps_comprehension self component (field :: post)
            (foldl (λ kw d, PyDict.set (d_param d) (d_raw d) kw) [] ds)
            (logged (dumps_calls ds) w) with
    | (inr kwargs, w') => (format_map (type_of component) kwargs, w')
    | (inl e, w') => (inl e, w')
    end).
  { unfold dumps. rewrite mbind_run, Hfields.
    rewrite (dumps_comprehension_prefix _ _ _ _ _ _ _ Hds).
    destruct (dumps_comprehension _ _ _ _ _) as [[e|kwargs] w']; [done|].
    unfold lift. by destruct (format_map _ _). }
  rewrite Hrun, dumps_comprehension_cons.
  split; [|split].
  - by intros e ->.
  - intros value -> Hmiss. rewrite dumps_param_run.
    change (mapping_items (logged (dumps_calls ds) w) (parsers self))
      with (mapping_items w (parsers self)).
    by rewrite Hmiss.
  - intros value p e -> Hp He. rewrite dumps_param_run.
    change (mapping_items (logged (dumps_calls ds) w) (parsers self))
      with (mapping_items w (parsers self)).
    by rewrite Hp, He, logged_logged.
Qed.

Lemma decode_all_encoded w self interaction ds :
  Forall (λ d, mapping_items w (parsers self) !! d_param d = Some (d_parser d) ∧
               parser_loads (d_parser d) interaction (d_raw d) = inr (d_value d))
         ds →
  decode_all w self interaction (filter nonempty (encoded_values ds)) =
    inr (filter encoded_nonempty ds).
Proof.
  induction 1 as [|d ds [Hp Hl] _ IH]; [done|].
  unfold encoded_values in *. rewrite fmap_cons, !filter_cons.
  unfold nonempty at 1, encoded_nonempty at 1. cbn [snd].
  destruct (decide (d_raw d ≠ "")); [|exact IH].
  cbn [decode_all]. rewrite Hp. unfold mbind, result_bind. rewrite Hl, IH.
  by destruct d.
Qed.

Lemma dump_all_bound w self component fields ds :
  dump_all w self component fields = inr ds →
  Forall (λ d, mapping_items w (parsers self) !! d_param d = Some (d_parser d) ∧
               getattr component (d_param d) = inr (d_value d) ∧
               parser_dumps (d_parser d) (d_value d) = inr (d_raw d)) ds.
Proof.
  revert ds. induction fields as [|field fields IH]; intros ds; cbn [dump_all].
  - intros [= <-]. constructor.
  - unfold mbind at 1, result_bind at 1.
    destruct (getattr component (attr_name field)) as [e|value] eqn:Hv; [done|].
    destruct (mapping_items w (parsers self) !! attr_name field) as [p|] eqn:Hp;
      [|done].
    unfold mbind, result_bind.
    destruct (parser_dumps p value) as [e|s] eqn:Hs; [done|].
    destruct (dump_all w self component fields) as [e|ds']; [done|].
    intros [= <-]. constructor; [done|]. by apply IH.
Qed.

Lemma loads_after_decoding self interaction params w ds :
  NoDup params.*1 →
  decode_all w self interaction (filter nonempty params) = inr ds →
  loads self interaction params w =
    (component_call (component self) (keyword_values ds),
     logged (loads_calls ds ++
             [ComponentCalled (component self) (keyword_values ds)]) w).
Proof.
  intros Hnd Hds. unfold loads. rewrite mbind_run.
  rewrite <- (app_nil_r params) at 1.
  rewrite (loads_comprehension_prefix _ _ _ _ _ _ _ Hds). simpl.
  rewrite foldl_set_fresh.
  - simpl. unfold mbind, M_bind, emit, lift. rewrite logged_logged.
    by destruct (component_call _ _).
  - simpl. replace (d_param <$> ds) with ((filter nonempty params).*1).
    + eapply sublist_NoDup; [exact Hnd|].
      apply fmap_sublist, sublist_filter.
    + rewrite <- (decode_all_entries _ _ _ _ _ Hds).
      by rewrite <- list_fmap_compose.
Qed.

(** X18. What [loads] makes of the strings that [dumps] hands to
    [format_map], when every parser decodes what it encoded: the component
    is called with the original attribute values of exactly the fields
    whose encoding is not empty; a field that encodes to the empty string
    is dropped, left to the component's default. *)
Theorem loads_of_dumped_fields self interaction (instance : Value) w ds :
  NoDup (attr_name <$> get_fields (type_of instance)) →
  dump_all w self instance (get_fields (type_of instance)) = inr ds →
  Forall (λ d, parser_loads (d_parser d) interaction (d_raw d) = inr (d_value d))
         ds →
  let kept := filter encoded_nonempty ds in
  loads self interaction (encoded_values ds) w =
    (component_call (component self) (keyword_values kept),
     logged (loads_calls kept ++
             [ComponentCalled (component self) (keyword_values kept)]) w).
Proof.
  intros Hnd Hds Hloads kept. apply loads_after_decoding.
  - unfold encoded_values. rewrite <- list_fmap_compose.
    change (fst ∘ _) with d_param.
    by rewrite (dump_all_names _ _ _ _ _ Hds).
  - apply decode_all_encoded.
    pose proof (dump_all_bound _ _ _ _ _ Hds) as Hbound.
    rewrite Forall_forall in Hbound, Hloads. apply Forall_forall.
    intros d Hd. split; [by apply Hbound|by apply Hloads].
Qed.

End dumps_properties.

(** X13 on the sample factory: there is no field [ghost]. *)
Lemma loads_unknown_field_witness :
  @loads Sample.externals SampleFactory.factory VNone
    [("user_id", "42"); ("ghost", "x"); ("note", "hi")] SampleFactory.world =
  (inl (KeyError "ghost"),
   logged [LoadsCalled (Parser 1 "IntParser" [] None) "42"] SampleFactory.world).
Proof.
  apply (@loads_unknown_field Sample.externals SampleFactory.factory VNone
           [("user_id", "42")] "ghost" "x" [("note", "hi")] SampleFactory.world
           [ {| d_param := "user_id"; d_raw := "42";
                d_parser := Parser 1 "IntParser" [] None;
                d_value := VInt 42 |} ]).
  - reflexivity.
  - discriminate.
  - reflexivity.
Defined.

(** X15 on the sample factory: the number 42 through [user_id]. *)
Lemma dumps_param_loads_param_witness :
  (s ← @dumps_param SampleComponent.externals SampleFactory.factory
         "user_id" (VInt 42);
   @loads_param SampleComponent.externals SampleFactory.factory VNone
     "user_id" s) SampleFactory.world =
  (inr (VInt 42),
   logged [DumpsCalled (Parser 1 "IntParser" [] None) (VInt 42);
           LoadsCalled (Parser 1 "IntParser" [] None) "42"] SampleFactory.world).
Proof.
  apply (@dumps_param_loads_param SampleComponent.externals
           SampleFactory.factory VNone "user_id"
           (Parser 1 "IntParser" [] None) (VInt 42) "42" SampleFactory.world);
    reflexivity.
Defined.

(** X16 on a sample component whose [note] is the empty string. *)
Lemma dumps_encodes_every_field_witness :
  @dumps SampleComponent.externals SampleComponent.access SampleFactory.factory
    SampleDumps.instance SampleFactory.world =
  (inr "Component:42:",
   logged [DumpsCalled (Parser 1 "IntParser" [] None) (VInt 42);
           DumpsCalled (Parser 3 "StringParser" [] None) (VStr "")]
     SampleFactory.world).
Proof.
  refine (proj2 (@dumps_encodes_every_field SampleComponent.externals
                   SampleComponent.access SampleFactory.factory
                   SampleDumps.instance SampleFactory.world
                   SampleDumps.dumped _ _)).
  - refine (bool_decide_unpack _ _). vm_compute. exact I.
  - reflexivity.
Defined.

(** X17 on a sample component whose [user_id] the parser cannot encode. *)
Lemma dumps_first_error_witness :
  @dumps SampleComponent.externals SampleComponent.access SampleFactory.factory
    (VComponent "Component" [("user_id", VInt 7); ("note", VStr "hi")])
    SampleFactory.world =
  (inl (ParserError "dumps"),
   logged [DumpsCalled (Parser 1 "IntParser" [] None) (VInt 7)]
     SampleFactory.world).
Proof.
  destruct (@dumps_first_error SampleComponent.externals SampleComponent.access
              SampleFactory.factory
              (VComponent "Component" [("user_id", VInt 7); ("note", VStr "hi")])
              []
              {| attr_name := "user_id"; attr_type := Some int; attr_parser := None |}
              [ {| attr_name := "note"; attr_type := Some str; attr_parser := None |} ]
              SampleFactory.world [] eq_refl eq_refl)
    as (_ & _ & Hparser).
  apply (Hparser (VInt 7) (Parser 1 "IntParser" [] None) (ParserError "dumps"));
    reflexivity.
Defined.

(** X18 on the sample component: [note] encodes to the empty string and
    does not come back. *)
Lemma loads_of_dumped_fields_witness :
  @loads SampleComponent.externals SampleFactory.factory VNone
    [("user_id", "42"); ("note", "")] SampleFactory.world =
  (inr (VComponent "Component" [("user_id", VInt 42)]),
   logged [LoadsCalled (Parser 1 "IntParser" [] None) "42";
           ComponentCalled "Component" [("user_id", VInt 42)]]
     SampleFactory.world).
Proof.
  apply (@loads_of_dumped_fields SampleComponent.externals SampleComponent.access
           SampleFactory.factory VNone SampleDumps.instance SampleFactory.world
           SampleDumps.dumped).
  - refine (bool_decide_unpack _ _). vm_compute. exact I.
  - reflexivity.
  - repeat constructor.
Defined.

(** ** The enum parser, continued *)

Section enum_edges.
Context `{Builtins}.

(** X19. For a class that is not a flag class: with a mixin member type
    (a [_member_type_] other than [object]) the members are not looked at
    and the value type is the mixin type; without one, a class that has no
    members makes [_get_enum_type], and with it the construction of the
    parser whatever [store_by_value] is, raise [StopIteration]. *)
Theorem _get_enum_type_without_members ec :
  issubclass (enum_cls ec) (One BaseFlags) = Some false →
  (∀ t, _member_type_ ec = Some t → t ≠ object →
        _get_enum_type ec = inr (Some t)) ∧
  (default object (_member_type_ ec) = object → members ec = [] →
   _get_enum_type ec = inl StopIteration ∧
   ∀ reg store_by_value w,
     EnumParser_init reg ec store_by_value w = (inl StopIteration, w)).
Proof.
  intros Hfl. split.
  - intros t Ht Hne. unfold _get_enum_type, issubclass_or_raise.
    rewrite Hfl, Ht. unfold mbind, result_bind. cbv [default from_option id].
    by destruct (decide (t ≠ object)).
  - intros Hmixin Hnone.
    assert (Hty : _get_enum_type ec = inl StopIteration).
    { unfold _get_enum_type, issubclass_or_raise. rewrite Hfl, Hmixin, Hnone.
      unfold mbind, result_bind.
      by destruct (decide (object ≠ object)). }
    split; [done|]. intros reg sbv w.
    unfold EnumParser_init. rewrite mbind_run. unfold lift. by rewrite Hty.
Qed.

Lemma EnumParser_init_inv reg ec sbv w ep w' :
  EnumParser_init reg ec sbv w = (inr ep, w') →
  ∃ fl ovt,
    issubclass (enum_cls ec) (One BaseFlags) = Some fl ∧
    _get_enum_type ec = inr ovt ∧
    (fl && bool_decide (sbv = Some false) = false) ∧
    match ovt, sbv with
    | None, (None | Some false) =>
        built ec false str (get_parser reg str w) = (inr ep, w')
    | Some vt, None =>
        ∃ b, issubclass vt (One int) = Some b ∧
             built ec b vt (get_parser reg vt w) = (inr ep, w')
    | Some vt, Some b => built ec b vt (get_parser reg vt w) = (inr ep, w')
    | None, Some true => False
    end.
Proof.
  intros Hrun.
  destruct (issubclass (enum_cls ec) (One BaseFlags)) as [fl|] eqn:Hfl.
  2: { unfold EnumParser_init, _get_enum_type, issubclass_or_raise in Hrun.
       rewrite Hfl in Hrun. done. }
  destruct (_get_enum_type ec) as [e|ovt] eqn:Hty.
  { unfold EnumParser_init in Hrun. rewrite mbind_run in Hrun.
    unfold lift in Hrun. by rewrite Hty in Hrun. }
  exists fl, ovt. split; [done|]. split; [done|].
  rewrite (EnumParser_init_run _ _ _ _ _ _ Hfl Hty) in Hrun.
  destruct (fl && bool_decide (sbv = Some false)); [done|]. split; [done|].
  destruct ovt as [vt|], sbv as [[]|]; try done.
  destruct (issubclass vt (One int)) as [b|]; [|done]. by exists b.
Qed.

Lemma built_inv ec b vt run ep w' :
  built ec b vt run = (inr ep, w') →
  enum_class ep = ec ∧ store_by_value ep = b ∧ value_type ep = vt ∧
  run = (inr (value_parser ep), w').
Proof.
  unfold built. destruct run as [[e|vp] w1]; [done|]. by intros [= <- <-].
Qed.

(** X20. A parser that was constructed for a flag class always stores by
    value, with [int] as its value type, given that [int] is a subclass of
    itself: this is what the assertion in [dumps] relies on. *)
Theorem EnumParser_flags_store_by_value reg ec sbv w ep w' :
  issubclass (enum_cls ec) (One BaseFlags) = Some true →
  issubclass int (One int) = Some true →
  EnumParser_init reg ec sbv w = (inr ep, w') →
  store_by_value ep = true ∧ value_type ep = int.
Proof.
  intros Hfl Hint Hrun.
  destruct (EnumParser_init_inv _ _ _ _ _ _ Hrun) as (fl & ovt & Hfl' & Hty & Hguard & Hpol).
  rewrite Hfl in Hfl'. injection Hfl' as <-.
  rewrite (_get_enum_type_flags _ Hfl) in Hty. injection Hty as <-.
  destruct sbv as [[]|]; simpl in Hguard; try done.
  - by apply built_inv in Hpol as (_ & ? & ? & _).
  - destruct Hpol as (b & Hb & Hpol). rewrite Hint in Hb. injection Hb as <-.
    by apply built_inv in Hpol as (_ & ? & ? & _).
Qed.

(** X21. Every parser that [EnumParser.__init__] constructs is coherent:
    it is for the class it was given, its value parser is what [get_parser]
    returns for its value type, storing by value comes with a value type
    shared by the members as [_get_enum_type] found it, and a class without
    such a type gets a parser that stores names, with [str] as value type. *)
Theorem EnumParser_init_coherent reg ec sbv w ep w' :
  EnumParser_init reg ec sbv w = (inr ep, w') →
  enum_class ep = ec ∧
  get_parser reg (value_type ep) w = (inr (value_parser ep), w') ∧
  (store_by_value ep = true → _get_enum_type ec = inr (Some (value_type ep))) ∧
  (_get_enum_type ec = inr None →
   store_by_value ep = false ∧ value_type ep = str).
Proof.
  intros Hrun.
  destruct (EnumParser_init_inv _ _ _ _ _ _ Hrun) as (fl & ovt & _ & Hty & _ & Hpol).
  rewrite Hty.
  destruct ovt as [vt|], sbv as [[]|]; try done;
    try (destruct Hpol as (b & _ & Hpol));
    apply built_inv in Hpol as (<- & Hs & Hv & Hp); rewrite Hv;
    repeat split; try done; try congruence.
Qed.

End enum_edges.

(** X19 on sample classes: an [IntEnum] without members has the value type
    [int]; a plain enum without members has none. *)
Lemma _get_enum_type_without_members_witness :
  @_get_enum_type Sample.builtins
    {| enum_cls := TClass "Color"; _member_type_ := Some int; members := [] |} =
    inr (Some int) ∧
  (@EnumParser_init Sample.builtins Sample.registry
     {| enum_cls := TClass "Color"; _member_type_ := Some object; members := [] |}
     (Some false) Sample.world0) = (inl StopIteration, Sample.world0).
Proof.
  split.
  - apply (@_get_enum_type_without_members Sample.builtins
             {| enum_cls := TClass "Color"; _member_type_ := Some int;
                members := [] |} eq_refl); [reflexivity|discriminate].
  - apply (@_get_enum_type_without_members Sample.builtins
             {| enum_cls := TClass "Color"; _member_type_ := Some object;
                members := [] |} eq_refl); reflexivity.
Defined.

(** X20 on the sample flag class, with [store_by_value] left out. *)
Lemma EnumParser_flags_store_by_value_witness :
  ∃ ep w',
    @EnumParser_init Sample.builtins Sample.registry SampleEnum.Permissions
      None Sample.world0 = (inr ep, w') ∧
    store_by_value ep = true ∧ value_type ep = int.
Proof.
  eexists _, _. split; [reflexivity|].
  apply (@EnumParser_flags_store_by_value Sample.builtins Sample.registry
           SampleEnum.Permissions None Sample.world0 _ _ eq_refl eq_refl eq_refl).
Defined.

(** X21 on the sample enum of mixed values. *)
Lemma EnumParser_init_coherent_witness :
  ∃ ep w',
    @EnumParser_init Sample.builtins Sample.registry SampleEnum.Mixed
      None Sample.world0 = (inr ep, w') ∧
    @get_parser Sample.builtins Sample.registry (value_type ep) Sample.world0 =
      (inr (value_parser ep), w').
Proof.
  eexists _, _. split; [reflexivity|].
  apply (@EnumParser_init_coherent Sample.builtins Sample.registry
           SampleEnum.Mixed None Sample.world0 _ _ eq_refl).
Defined.

(** ** The channel, emoji and sticker parsers *)

Section lookup_properties.
Context `{Builtins} `{Conversions}.

Lemma GetChannelParserBase_loads_inv parser_type inter argument channel :
  GetChannelParserBase_loads parser_type inter argument = inr channel ↔
  ∃ id, int_of_str argument = inr id ∧
        get_channel inter id = Some channel ∧
        issubclass (entity_type channel) (One parser_type) = Some true.
Proof.
  unfold GetChannelParserBase_loads, isinstance, issubclass_or_raise. split.
  - destruct (int_of_str argument) as [e|id]; [done|].
    destruct (get_channel inter id) as [ch|] eqn:Hcache; [|done].
    destruct (issubclass (entity_type ch) (One parser_type)) as [[]|] eqn:Hsub;
      [|done..].
    intros [= <-]. exists id. auto.
  - intros (id & -> & -> & ->). done.
Qed.

(** X22. The cache-only channel parser returns a channel exactly when the
    argument is a number, the bot's cache has a channel under it and that
    channel is an instance of the parser's type; what it returns is that
    cached channel. *)
Theorem GetChannelParserBase_loads_returns parser_type inter argument channel :
  GetChannelParserBase_loads parser_type inter argument = inr channel ↔
  ∃ id, int_of_str argument = inr id ∧
        get_channel inter id = Some channel ∧
        issubclass (entity_type channel) (One parser_type) = Some true.
Proof. apply GetChannelParserBase_loads_inv. Qed.

(** X23. The fetching channel parser asks the API at most once, and only
    when the bot's cache has no channel under the number; whatever it
    returns is an instance of the parser's type, taken from the cache or
    else from that one request. *)
Theorem ChannelParserBase_loads_requests parser_type inter argument :
  let run := ChannelParserBase_loads parser_type inter argument in
  (run.2 = [] ∨
   ∃ id, int_of_str argument = inr id ∧ get_channel inter id = None ∧
         run.2 = [FetchChannel id]) ∧
  (∀ channel,
     run.1 = inr channel →
     issubclass (entity_type channel) (One parser_type) = Some true ∧
     ∃ id, int_of_str argument = inr id ∧
           (get_channel inter id = Some channel ∨
            (get_channel inter id = None ∧ fetch_channel inter id = inr channel))).
Proof.
  unfold ChannelParserBase_loads, isinstance, issubclass_or_raise.
  destruct (int_of_str argument) as [e|id]; simpl.
  { split; [by left|done]. }
  destruct (get_channel inter id) as [ch|] eqn:Hcache.
  - destruct (issubclass (entity_type ch) (One parser_type)) as [[]|] eqn:Hsub;
      simpl; (split; [by left|]); try done.
    intros channel [= <-]. split; [done|]. exists id. auto.
  - destruct (fetch_channel inter id) as [e|ch] eqn:Hfetch; simpl.
    { split; [right; by exists id|done]. }
    destruct (issubclass (entity_type ch) (One parser_type)) as [[]|] eqn:Hsub;
      simpl; (split; [right; by exists id|]); try done.
    intros channel [= <-]. split; [done|]. exists id. auto.
Qed.

(** X24. Whenever the cache-only channel parser returns a channel, the
    fetching parser for the same type returns the same channel without any
    request; and where the cache-only parser raises [LookupError], the
    fetching parser has asked the API. *)
Theorem ChannelParserBase_loads_agrees parser_type inter argument :
  (∀ channel,
     GetChannelParserBase_loads parser_type inter argument = inr channel →
     ChannelParserBase_loads parser_type inter argument = (inr channel, [])) ∧
  (∀ msg,
     GetChannelParserBase_loads parser_type inter argument = inl (LookupError msg) →
     ∃ id, int_of_str argument = inr id ∧
           (ChannelParserBase_loads parser_type inter argument).2 = [FetchChannel id]).
Proof.
  split.
  - intros channel (id & Hid & Hcache & Hsub)%GetChannelParserBase_loads_inv.
    unfold ChannelParserBase_loads, isinstance, issubclass_or_raise.
    by rewrite Hid, Hcache, Hsub.
  - intros msg.
    unfold GetChannelParserBase_loads, ChannelParserBase_loads, isinstance,
      issubclass_or_raise.
    destruct (int_of_str argument) as [e|id]; [done|].
    destruct (get_channel inter id) as [ch|].
    + by destruct (issubclass (entity_type ch) (One parser_type)) as [[]|].
    + intros _. exists id. split; [done|].
      destruct (fetch_channel inter id) as [e|ch]; [done|].
      by destruct (issubclass (entity_type ch) (One parser_type)) as [[]|].
Qed.

(** X25. Outside a guild the fetching emoji and sticker parsers raise
    [TypeError] for every argument, without a look at the cache or a
    request, although the cache-only parsers return what is cached; in a
    guild, whatever the cache-only parsers return the fetching parsers
    return too, without a request. *)
Theorem fetching_parsers_need_a_guild inter argument :
  (guild inter = None →
   (∃ msg, EmojiParser_loads inter argument = (inl (Builtin (TypeError msg)), [])) ∧
   (∃ msg, StickerParser_loads inter argument = (inl (Builtin (TypeError msg)), []))) ∧
  (is_Some (guild inter) →
   (∀ emoji, GetEmojiParser_loads inter argument = inr emoji →
             EmojiParser_loads inter argument = (inr emoji, [])) ∧
   (∀ sticker, GetStickerParser_loads inter argument = inr sticker →
               StickerParser_loads inter argument = (inr sticker, []))).
Proof.
  unfold EmojiParser_loads, StickerParser_loads, GetEmojiParser_loads,
    GetStickerParser_loads.
  split.
  - intros ->. split; by eexists.
  - intros [g ->]. destruct (int_of_str argument) as [e|id]; [done|]. split.
    + intros emoji. by destruct (get_emoji inter id) as [?|]; [intros [= ->]|].
    + intros sticker. by destruct (get_sticker inter id) as [?|]; [intros [= ->]|].
Qed.

End lookup_properties.

(** X25 on the sample interactions: emoji 7 is cached. *)
Lemma fetching_parsers_need_a_guild_witness :
  @GetEmojiParser_loads SampleLookup.conversions SampleLookup.direct_message "7" =
    inr SampleLookup.emoji7 ∧
  (∃ msg, @EmojiParser_loads SampleLookup.conversions
            SampleLookup.direct_message "7" =
          (inl (Builtin (TypeError msg)), [])) ∧
  @EmojiParser_loads SampleLookup.conversions SampleLookup.in_guild "7" =
    (inr SampleLookup.emoji7, []).
Proof.
  split; [reflexivity|]. split.
  - apply (@fetching_parsers_need_a_guild SampleLookup.conversions
             SampleLookup.direct_message "7"). reflexivity.
  - apply (@fetching_parsers_need_a_guild SampleLookup.conversions
             SampleLookup.in_guild "7"); [by eexists|reflexivity].
Defined.

(** X24 on the sample interaction: channel 7 is cached, channel 8 is not. *)
Lemma ChannelParserBase_loads_agrees_witness :
  @ChannelParserBase_loads Sample.builtins SampleLookup.conversions
    (TClass "Base") SampleLookup.in_guild "7" = (inr SampleLookup.emoji7, []) ∧
  (@ChannelParserBase_loads Sample.builtins SampleLookup.conversions
     (TClass "Base") SampleLookup.in_guild "8").2 = [FetchChannel 8].
Proof.
  destruct (@ChannelParserBase_loads_agrees Sample.builtins SampleLookup.conversions
              (TClass "Base") SampleLookup.in_guild "7") as (Hhit & _).
  destruct (@ChannelParserBase_loads_agrees Sample.builtins SampleLookup.conversions
              (TClass "Base") SampleLookup.in_guild "8") as (_ & Hmiss).
  split.
  - apply Hhit. reflexivity.
  - destruct (Hmiss "Could not find a channel with id '8'." eq_refl)
      as (id & Hid & Hreq).
    injection Hid as <-. exact Hreq.
Defined.

(** X22 on the sample interaction: channel 7 is an [Other], a [Base]. *)
Lemma GetChannelParserBase_loads_returns_witness :
  @GetChannelParserBase_loads Sample.builtins SampleLookup.conversions
    (TClass "Base") SampleLookup.direct_message "7" = inr SampleLookup.emoji7.
Proof.
  apply (@GetChannelParserBase_loads_returns Sample.builtins
           SampleLookup.conversions).
  exists 7%Z. repeat split.
Defined.

(** X23 on the sample interaction: channel 8 is not cached and the request
    for it fails. *)
Lemma ChannelParserBase_loads_requests_witness :
  let run := @ChannelParserBase_loads Sample.builtins SampleLookup.conversions
               (TClass "Base") SampleLookup.in_guild "8" in
  run.2 = [] ∨
  ∃ id, @int_of_str SampleLookup.conversions "8" = inr id ∧
        get_channel SampleLookup.in_guild id = None ∧
        run.2 = [FetchChannel id].
Proof.
  apply (@ChannelParserBase_loads_requests Sample.builtins
           SampleLookup.conversions (TClass "Base") SampleLookup.in_guild "8").
Defined.

(** ** [from_component] *)

Section from_component_properties.
Context `{Builtins}.

Lemma add_fields_names reg b fields w w' :
  is_Some (dicts w !! builder_parsers b) →
  add_fields reg b fields w = (inr (), w') →
  dom (deref w' (builder_parsers b)) =
    dom (deref w (builder_parsers b)) ∪ list_to_set (attr_name <$> fields).
Proof.
  revert w. induction fields as [|field fields IH]; intros w Hb.
  - intros [= <-]. set_solver.
  - cbn [add_fields]. rewrite mbind_run.
    destruct (add_field reg b field w) as [[e|p] w1] eqn:Hadd; [done|].
    intros Hrest.
    destruct (add_field_records _ _ _ _ _ _ Hb Hadd) as (Hrec & Hb1).
    rewrite (IH _ Hb1 Hrest), Hrec, dom_insert_L, fmap_cons. set_solver.
Qed.

(** X26. A factory that [from_component] returns is for the component it
    was given, and its parser mapping, a dictionary made by the call, holds
    exactly the names of the fields it was given. *)
Theorem from_component_field_names reg cls fields w factory w' :
  from_component reg cls fields w = (inr factory, w') →
  component factory = cls ∧
  parsers factory = DictObject (next_oid w) ∧
  dom (mapping_items w' (parsers factory)) = list_to_set (attr_name <$> fields).
Proof.
  unfold from_component, mbind, M_bind, mret, M_ret, new_dict.
  rewrite (from_component_loop_add_fields reg
             {| builder_parsers := next_oid w; builder_component := cls |}).
  destruct (add_fields _ _ _ _) as [[e|[]] w1] eqn:Hrun; [done|].
  intros [= <- <-]. split; [done|]. split; [done|].
  apply add_fields_names in Hrun.
  - unfold mapping_items. simpl in *. rewrite Hrun.
    unfold deref. simpl. rewrite lookup_insert_eq. simpl. set_solver.
  - simpl. rewrite lookup_insert_eq. by eexists.
Qed.

End from_component_properties.

(** X26 on the sample registry, for the fields [user_id] and [page]. *)
Lemma from_component_field_names_witness :
  ∃ factory w',
    @from_component Sample.builtins Sample.registry "Component"
      [SampleBuilder.user_id; SampleBuilder.page] Sample.world0 =
      (inr factory, w') ∧
    dom (mapping_items w' (parsers factory)) = {["user_id"; "page"]}.
Proof.
  eexists _, _. split; [reflexivity|].
  destruct (@from_component_field_names Sample.builtins Sample.registry
              "Component" [SampleBuilder.user_id; SampleBuilder.page]
              Sample.world0 _ _ eq_refl) as (_ & _ & Hdom).
  rewrite Hdom. simpl. set_solver.
Defined.
